(** * UpTask backend: account lifecycle and project route authorization

    A shallow embedding of [src/controllers/AuthController.ts],
    [src/emails/AuthEmail.ts] and [src/routes/projectRoutes.ts].

    The persistence layer (Mongoose collections of users and tokens) is a
    pair of lists in insertion order; every [await]ed persistence call may
    resolve or reject, as decided by a per-request environment; the mail
    transport is an outbox that records each [sendMail] invocation. *)

From Stdlib Require Import String Ascii List Bool Arith Lia.
Import ListNotations.
Open Scope string_scope.

(** ** Documents *)

Definition ObjectId := nat.

(** A document of the [User] collection, with the fields the controller
    reads and writes. *)
Record IUser := mkUser {
  user_id : ObjectId;
  user_name : string;
  user_email : string;
  user_password : string;
  user_confirmed : bool
}.

(** A document of the [Token] collection: [token.token], [token.user]. *)
Record IToken := mkToken {
  token_id : ObjectId;
  token_token : string;
  token_user : ObjectId
}.

(** The argument of the [AuthEmail] senders. *)
Record IEmail := mkEmail {
  mail_email : string;
  mail_name : string;
  mail_token : string
}.

Inductive Mail :=
| ConfirmationEmail (m : IEmail)
| PasswordResetToken (m : IEmail).

(** ** Responses *)

Inductive Body :=
| Message (text : string)
| Jwt (credential : string).

Inductive Response :=
| res_send (b : Body)
| res_status_json_error (status : nat) (error : string)
| res_status_send (status : nat) (text : string)
| unhandled_rejection.

(** ** The world a handler runs in *)

Record World := mkWorld {
  users : list IUser;
  tokens : list IToken;
  outbox : list Mail;
  next_id : ObjectId
}.

Definition with_users (us : list IUser) (w : World) : World :=
  mkWorld us (tokens w) (outbox w) (next_id w).

Definition with_tokens (ts : list IToken) (w : World) : World :=
  mkWorld (users w) ts (outbox w) (next_id w).

Definition with_outbox (ms : list Mail) (w : World) : World :=
  mkWorld (users w) (tokens w) ms (next_id w).

(** The persistence calls a handler awaits. *)
Inductive DbCall :=
| User_findOne
| User_findById
| User_save
| Token_findOne
| Token_save
| Token_deleteOne.

(** What a single request cannot control: the code [generateToken()]
    returns, and which persistence calls resolve. *)
Record Env := mkEnv {
  generateToken : string;
  resolves : DbCall -> bool
}.

(** ** The handler monad

    An [async] body either goes on with a value, leaves through
    [return res...], or throws (an awaited promise rejected). Writes made
    before leaving stay in the world. *)

Inductive Abort :=
| Returned (r : Response)
| Thrown.

Definition M (A : Type) : Type := World -> (A + Abort) * World.

Definition ret {A : Type} (a : A) : M A := fun w => (inl a, w).

Definition bind {A B : Type} (m : M A) (k : A -> M B) : M B :=
  fun w =>
    match m w with
    | (inl a, w') => k a w'
    | (inr e, w') => (inr e, w')
    end.

Notation "x <- m ;; k" := (bind m (fun x => k))
  (at level 61, m at next level, right associativity).
Notation "m ;;; k" := (bind m (fun _ => k))
  (at level 61, right associativity).

Definition return_ {A : Type} (r : Response) : M A :=
  fun w => (inr (Returned r), w).

(** [await] of a persistence call: [op] runs when the call resolves. *)
Definition await {A : Type} (env : Env) (c : DbCall) (op : World -> A * World) : M A :=
  fun w =>
    if resolves env c
    then let (a, w') := op w in (inl a, w')
    else (inr Thrown, w).

(** One promise of [Promise.allSettled]: its rejection is swallowed. *)
Definition settled (m : M unit) : M unit :=
  fun w =>
    match m w with
    | (inl _, w') => (inl tt, w')
    | (inr _, w') => (inl tt, w')
    end.

Fixpoint allSettled (ps : list (M unit)) : M unit :=
  match ps with
  | [] => ret tt
  | p :: rest => settled p ;;; allSettled rest
  end.

(** [try { ... } catch (error) { res.status(500).json({error: 'Hubo un error'}) }] *)
Definition try_catch (m : M Response) (w : World) : Response * World :=
  match m w with
  | (inl r, w') => (r, w')
  | (inr (Returned r), w') => (r, w')
  | (inr Thrown, w') => (res_status_json_error 500 "Hubo un error", w')
  end.

(** An [async] handler body with no [try] around it. *)
Definition no_catch (m : M Response) (w : World) : Response * World :=
  match m w with
  | (inl r, w') => (r, w')
  | (inr (Returned r), w') => (r, w')
  | (inr Thrown, w') => (unhandled_rejection, w')
  end.

(** [new User(...)] and [new Token()] draw a fresh [ObjectId]. *)
Definition new_ObjectId : M ObjectId :=
  fun w => (inl (next_id w), mkWorld (users w) (tokens w) (outbox w) (S (next_id w))).

(** ** Case normalization of emails *)

Definition is_upper (c : ascii) : bool :=
  Nat.leb 65 (nat_of_ascii c) && Nat.leb (nat_of_ascii c) 90.

Definition lower_ascii (c : ascii) : ascii :=
  if is_upper c then ascii_of_nat (nat_of_ascii c + 32) else c.

Fixpoint toLowerCase (s : string) : string :=
  match s with
  | EmptyString => EmptyString
  | String c r => String (lower_ascii c) (toLowerCase r)
  end.

(** Modelled from the spec: the [User] schema (models/User.ts) is not among
    the sources; the data model says an account's email is unique and
    case-normalized. The schema's setter for the [email] path lower-cases
    the value, both when a document path is assigned and when a query
    filter on that path is cast. *)
Definition email_setter (e : string) : string := toLowerCase e.

(** ** Collections

    The filters of the queries the controller makes. *)

Definition has_email (email : string) (u : IUser) : bool :=
  user_email u =? email_setter email.

Definition has_id (i : ObjectId) (u : IUser) : bool :=
  Nat.eqb (user_id u) i.

Definition has_code (code : string) (t : IToken) : bool :=
  token_token t =? code.

Definition owned_by (uid : ObjectId) (t : IToken) : bool :=
  Nat.eqb (token_user t) uid.

Module User.

Definition findOne (env : Env) (email : string) : M (option IUser) :=
  await env User_findOne
    (fun w => (find (has_email email) (users w), w)).

Definition findById (env : Env) (i : ObjectId) : M (option IUser) :=
  await env User_findById
    (fun w => (find (has_id i) (users w), w)).

(** [save()] of a document made by [new User(...)]: an insert. *)
Definition save_new (env : Env) (u : IUser) : M unit :=
  await env User_save (fun w => (tt, with_users (users w ++ [u]) w)).

Fixpoint update (i : ObjectId) (assign : IUser -> IUser) (us : list IUser) : list IUser :=
  match us with
  | [] => []
  | v :: rest =>
      if Nat.eqb (user_id v) i then assign v :: rest else v :: update i assign rest
  end.

(** [save()] of a loaded document: the paths assigned since it was loaded
    are written to the stored document with the same [_id]. *)
Definition save (env : Env) (i : ObjectId) (assign : IUser -> IUser) : M unit :=
  await env User_save (fun w => (tt, with_users (update i assign (users w)) w)).

End User.

Module Token.

(** [Token.findOne({token})] *)
Definition findOne (env : Env) (code : string) : M (option IToken) :=
  await env Token_findOne
    (fun w => (find (has_code code) (tokens w), w)).

(** [Token.findOne({user: user.id})] *)
Definition findOne_user (env : Env) (uid : ObjectId) : M (option IToken) :=
  await env Token_findOne
    (fun w => (find (owned_by uid) (tokens w), w)).

Definition save (env : Env) (t : IToken) : M unit :=
  await env Token_save (fun w => (tt, with_tokens (tokens w ++ [t]) w)).

Fixpoint remove_id (i : ObjectId) (ts : list IToken) : list IToken :=
  match ts with
  | [] => []
  | t :: rest => if Nat.eqb (token_id t) i then rest else t :: remove_id i rest
  end.

(** [doc.deleteOne()]: deletes the stored document with this [_id]. *)
Definition deleteOne (env : Env) (t : IToken) : M unit :=
  await env Token_deleteOne
    (fun w => (tt, with_tokens (remove_id (token_id t) (tokens w)) w)).

End Token.

(** ** Outbound email: each sender calls [transporter.sendMail] once, and
    no handler awaits it. *)

Module AuthEmail.

Definition sendConfirmationEmail (user : IEmail) : M unit :=
  fun w => (inl tt, with_outbox (outbox w ++ [ConfirmationEmail user]) w).

Definition sendPasswordResetToken (user : IEmail) : M unit :=
  fun w => (inl tt, with_outbox (outbox w ++ [PasswordResetToken user]) w).

End AuthEmail.

(** ** The controller *)

Definition throw {A : Type} : M A := fun w => (inr Thrown, w).

(** Assignments to the paths of a loaded user document. *)
Definition set_confirmed (b : bool) (u : IUser) : IUser :=
  mkUser (user_id u) (user_name u) (user_email u) (user_password u) b.

Definition set_password (h : string) (u : IUser) : IUser :=
  mkUser (user_id u) (user_name u) (user_email u) h (user_confirmed u).

Definition set_name_email (n e : string) (u : IUser) : IUser :=
  mkUser (user_id u) n (email_setter e) (user_password u) (user_confirmed u).

Module AuthController.
Section Controller.

(** [utils/auth] and [utils/jwt] *)
Variable hashPassword : string -> string.
Variable checkPassword : string -> string -> bool.
Variable generateJWT : ObjectId -> string.

Definition createAccount (env : Env) (name email password : string)
  : World -> Response * World :=
  try_catch (
    userExists <- User.findOne env email ;;
    match userExists with
    | Some _ => return_ (res_status_json_error 409 "El usuario ya está registrado")
    | None =>
        uid <- new_ObjectId ;;
        let user := mkUser uid name (email_setter email) (hashPassword password) false in
        tid <- new_ObjectId ;;
        let token := mkToken tid (generateToken env) (user_id user) in
        AuthEmail.sendConfirmationEmail
          (mkEmail (user_email user) (user_name user) (token_token token)) ;;;
        allSettled [User.save_new env user; Token.save env token] ;;;
        ret (res_send (Message "Cuenta creada, revisa tu email para confirmarla"))
    end).

Definition confirmAccount (env : Env) (token : string) : World -> Response * World :=
  try_catch (
    tokenExist <- Token.findOne env token ;;
    match tokenExist with
    | None => return_ (res_status_json_error 404 "Token no válido")
    | Some tokenExist =>
        user <- User.findById env (token_user tokenExist) ;;
        match user with
        | None => throw
        | Some user =>
            allSettled [User.save env (user_id user) (set_confirmed true);
                        Token.deleteOne env tokenExist] ;;;
            ret (res_send (Message "Cuenta confirmada correctamente"))
        end
    end).

Definition login (env : Env) (email password : string) : World -> Response * World :=
  try_catch (
    user <- User.findOne env email ;;
    match user with
    | None => return_ (res_status_json_error 404 "Usuario no encontrado")
    | Some user =>
        if negb (user_confirmed user) then
          previousToken <- Token.findOne_user env (user_id user) ;;
          match previousToken with
          | Some previousToken => Token.deleteOne env previousToken
          | None => ret tt
          end ;;;
          tid <- new_ObjectId ;;
          let token := mkToken tid (generateToken env) (user_id user) in
          Token.save env token ;;;
          AuthEmail.sendConfirmationEmail
            (mkEmail (user_email user) (user_name user) (token_token token)) ;;;
          return_ (res_status_json_error 401
            "La cuenta no ha sido confirmada, hemos enviado un e-mail de confirmación")
        else
          if negb (checkPassword password (user_password user)) then
            return_ (res_status_json_error 404 "Password incorrecto")
          else
            ret (res_send (Jwt (generateJWT (user_id user))))
    end).

Definition requestConfirmationCode (env : Env) (email : string)
  : World -> Response * World :=
  try_catch (
    user <- User.findOne env email ;;
    match user with
    | None => return_ (res_status_json_error 404 "El usuario no está registrado")
    | Some user =>
        if user_confirmed user then
          return_ (res_status_json_error 403 "El usuario ya está confirmado")
        else
          previousToken <- Token.findOne_user env (user_id user) ;;
          match previousToken with
          | Some previousToken => Token.deleteOne env previousToken
          | None => ret tt
          end ;;;
          tid <- new_ObjectId ;;
          let token := mkToken tid (generateToken env) (user_id user) in
          AuthEmail.sendConfirmationEmail
            (mkEmail (user_email user) (user_name user) (token_token token)) ;;;
          Token.save env token ;;;
          ret (res_send (Message "Se envió un nuevo token a tu e-mail"))
    end).

Definition forgotPassword (env : Env) (email : string) : World -> Response * World :=
  try_catch (
    user <- User.findOne env email ;;
    match user with
    | None => return_ (res_status_json_error 404 "El usuario no está registrado")
    | Some user =>
        previousToken <- Token.findOne_user env (user_id user) ;;
        match previousToken with
        | Some previousToken => Token.deleteOne env previousToken
        | None => ret tt
        end ;;;
        tid <- new_ObjectId ;;
        let token := mkToken tid (generateToken env) (user_id user) in
        Token.save env token ;;;
        AuthEmail.sendPasswordResetToken
          (mkEmail (user_email user) (user_name user) (token_token token)) ;;;
        ret (res_send (Message "Revisa tu email para instrucciones"))
    end).

Definition validateToken (env : Env) (token : string) : World -> Response * World :=
  try_catch (
    tokenExist <- Token.findOne env token ;;
    match tokenExist with
    | None => return_ (res_status_json_error 404 "Token no válido")
    | Some _ => ret (res_send (Message "Token válido, Define tu nuevo password"))
    end).

Definition updatePasswordWithToken (env : Env) (token password : string)
  : World -> Response * World :=
  try_catch (
    tokenExists <- Token.findOne env token ;;
    match tokenExists with
    | None => return_ (res_status_json_error 404 "Token no válido")
    | Some tokenExists =>
        user <- User.findById env (token_user tokenExists) ;;
        match user with
        | None => throw
        | Some user =>
            allSettled [User.save env (user_id user) (set_password (hashPassword password));
                        Token.deleteOne env tokenExists] ;;;
            ret (res_send (Message "El password se modificó correctamente"))
        end
    end).

(** [req_user] is [req.user.id], the account the session resolved to. The
    lookup is outside the [try]; only the save is inside it. *)
Definition updateProfile (env : Env) (req_user : ObjectId) (name email : string)
  : World -> Response * World :=
  no_catch (
    userExist <- User.findOne env email ;;
    match userExist with
    | Some userExist =>
        if negb (Nat.eqb (user_id userExist) req_user) then
          return_ (res_status_json_error 409 "Ese email ya está registrado")
        else ret tt
    | None => ret tt
    end ;;;
    fun w =>
      match (User.save env req_user (set_name_email name email) ;;;
             ret (res_send (Message "Perfil actualizado correctamente"))) w with
      | (inr Thrown, w') => (inl (res_status_send 500 "Hubo un error"), w')
      | other => other
      end).

(** [req_user] is [req.user.id]. The lookup and the password check are
    outside the [try]; reading [user.password] of a missing account throws
    there. *)
Definition updateCurrentUserPassword (env : Env) (req_user : ObjectId)
  (current_password password : string) : World -> Response * World :=
  no_catch (
    user <- User.findById env req_user ;;
    match user with
    | None => throw
    | Some user =>
        if negb (checkPassword current_password (user_password user)) then
          return_ (res_status_json_error 401 "El Password actual es incorrecto")
        else
          fun w =>
            match (User.save env (user_id user) (set_password (hashPassword password)) ;;;
                   ret (res_send (Message "El password se modificó correctamente"))) w with
            | (inr Thrown, w') => (inl (res_status_send 500 "Hubo un error"), w')
            | other => other
            end
    end).

(** The controller's [checkPassword] action (the name is taken by the
    utility it calls). Nothing in it is inside a [try]. *)
Definition checkPassword' (env : Env) (req_user : ObjectId) (password : string)
  : World -> Response * World :=
  no_catch (
    user <- User.findById env req_user ;;
    match user with
    | None => throw
    | Some user =>
        if negb (checkPassword password (user_password user)) then
          return_ (res_status_json_error 401 "El Password es incorrecto")
        else
          ret (res_send (Message "Password Correcto"))
    end).

End Controller.
End AuthController.

(** ** The typed failures of the taxonomy

    What the boundary writes for each failure: a status and a message. *)

Inductive Failure :=
| DuplicateEmail
| UnknownEmail
| InvalidToken
| AccountNotConfirmed
| AlreadyConfirmed
| InvalidPassword
| InternalFailure.

Definition failure (r : Response) : option Failure :=
  match r with
  | res_status_json_error 409 error =>
      if (error =? "El usuario ya está registrado") || (error =? "Ese email ya está registrado")
      then Some DuplicateEmail else None
  | res_status_json_error 404 error =>
      if (error =? "Usuario no encontrado") || (error =? "El usuario no está registrado")
      then Some UnknownEmail
      else if error =? "Token no válido" then Some InvalidToken
      else if error =? "Password incorrecto" then Some InvalidPassword
      else None
  | res_status_json_error 401 error =>
      if error =? "La cuenta no ha sido confirmada, hemos enviado un e-mail de confirmación"
      then Some AccountNotConfirmed else None
  | res_status_json_error 403 error =>
      if error =? "El usuario ya está confirmado" then Some AlreadyConfirmed else None
  | res_status_json_error 500 error =>
      if error =? "Hubo un error" then Some InternalFailure else None
  | res_status_send 500 text =>
      if text =? "Hubo un error" then Some InternalFailure else None
  | unhandled_rejection => Some InternalFailure
  | _ => None
  end.

Definition is_credential (r : Response) : bool :=
  match r with
  | res_send (Jwt _) => true
  | _ => false
  end.

(** ** Predicates on the store *)

Definition all_resolve (env : Env) : Prop := forall c, resolves env c = true.

Definition tokens_of (uid : ObjectId) (ts : list IToken) : list IToken :=
  filter (owned_by uid) ts.

(** At most one live token per account. *)
Definition one_token_per_account (ts : list IToken) : Prop :=
  forall uid, length (tokens_of uid ts) <= 1.

(** What the database and the [ObjectId] generator guarantee: [_id]s are
    unique within a collection and every stored [_id] or reference was
    drawn before [next_id]. *)
Record wf (w : World) : Prop := mk_wf {
  wf_token_ids : NoDup (map token_id (tokens w));
  wf_user_ids : NoDup (map user_id (users w));
  wf_token_bound : forall t, In t (tokens w) -> token_id t < next_id w /\ token_user t < next_id w;
  wf_user_bound : forall u, In u (users w) -> user_id u < next_id w
}.

(** Stored emails went through the schema setter and are unique. *)
Definition emails_normalized (us : list IUser) : Prop :=
  forall u, In u us -> user_email u = email_setter (user_email u).

Definition emails_unique (us : list IUser) : Prop :=
  NoDup (map user_email us).

(** Two characters are the same letter up to case; two strings are equal
    up to letter case when they are so character by character. *)
Definition same_letter (a b : ascii) : Prop :=
  a = b \/ (is_upper a = true /\ b = lower_ascii a) \/ (is_upper b = true /\ a = lower_ascii b).

Fixpoint eq_nocase (s1 s2 : string) : Prop :=
  match s1, s2 with
  | EmptyString, EmptyString => True
  | String a r1, String b r2 => same_letter a b /\ eq_nocase r1 r2
  | _, _ => False
  end.

(** ** Project routes: the chain a request goes through before its
    controller action *)

Module ProjectRoutes.

(** Modelled from the spec: the project model is not among the sources;
    the project lookup yields an owning account and a set of members. *)
Record Project := mkProject {
  manager : ObjectId;
  team : list ObjectId
}.

(** The steps of a chain that can end a request. The [body(...)] and
    [param(...)] validators only record errors; [handleInputsErrors] is
    the step that rejects on them. *)
Inductive Middleware :=
| authenticate
| projectExist
| taskExists
| taskBelongToProject
| handleInputsErrors
| hasAuthorization.

Inductive Action :=
| createProject
| getAllProjects
| getProjectById
| updateProject
| deleteProject
| createTask
| getProjectTasks
| getTaskById
| updateTask
| deleteTask
| updateStatus
| findMemberByEmail
| getProjectTeam
| addMemberById
| removeMemberById
| createNote
| getTaskNotes
| deleteNote.

(** Which [router.param] names the path of a route carries. *)
Definition has_projectId (a : Action) : bool :=
  match a with
  | createProject | getAllProjects | getProjectById => false
  | _ => true
  end.

Definition has_taskId (a : Action) : bool :=
  match a with
  | getTaskById | updateTask | deleteTask | updateStatus
  | createNote | getTaskNotes | deleteNote => true
  | _ => false
  end.

(** The handlers listed at each route, in order, up to the controller
    action. *)
Definition handlers (a : Action) : list Middleware :=
  match a with
  | createProject => [handleInputsErrors]
  | getAllProjects => []
  | getProjectById => [handleInputsErrors]
  | updateProject => [handleInputsErrors; hasAuthorization]
  | deleteProject => [handleInputsErrors; hasAuthorization]
  | createTask => [handleInputsErrors]
  | getProjectTasks => []
  | getTaskById => [handleInputsErrors]
  | updateTask => [hasAuthorization; handleInputsErrors]
  | deleteTask => [hasAuthorization; handleInputsErrors]
  | updateStatus => [hasAuthorization; handleInputsErrors]
  | findMemberByEmail => [handleInputsErrors]
  | getProjectTeam => []
  | addMemberById => [handleInputsErrors]
  | removeMemberById => [handleInputsErrors]
  | createNote => [handleInputsErrors]
  | getTaskNotes => []
  | deleteNote => [handleInputsErrors]
  end.

(** [router.use(authenticate)], then the [router.param] callbacks of the
    path, then the route's own handlers. *)
Definition chain (a : Action) : list Middleware :=
  [authenticate]
  ++ (if has_projectId a then [projectExist] else [])
  ++ (if has_taskId a then [taskExists; taskBelongToProject] else [])
  ++ handlers a.

(** What the steps outside this file find for a request. *)
Record Request := mkRequest {
  req_user : option ObjectId;
  req_project : option Project;
  req_task_exists : bool;
  req_task_in_project : bool;
  req_inputs_valid : bool
}.

Inductive Rejection :=
| AuthError
| NotFound
| InvalidInput
| Unauthorized.

Inductive Outcome :=
| Rejected (why : Rejection)
| Reaches (a : Action).

Section Gate.

(** The decision of [hasAuthorization] on the account and project of the
    request. *)
Variable gate : ObjectId -> Project -> bool.

(** Modelled from the spec: the middleware bodies (middleware/auth,
    middleware/project, middleware/task, middleware/validation) are not
    among the sources. Each step either rejects the request or calls
    [next()]: authentication fails without a resolved account, the
    existence checks fail on a missing project or task, input errors
    reject, and the authorization gate rejects as [Unauthorized]. *)
Definition step (m : Middleware) (req : Request) : option Rejection :=
  match m with
  | authenticate =>
      match req_user req with Some _ => None | None => Some AuthError end
  | projectExist =>
      match req_project req with Some _ => None | None => Some NotFound end
  | taskExists =>
      if req_task_exists req then None else Some NotFound
  | taskBelongToProject =>
      if req_task_in_project req then None else Some InvalidInput
  | handleInputsErrors =>
      if req_inputs_valid req then None else Some InvalidInput
  | hasAuthorization =>
      match req_user req, req_project req with
      | Some u, Some p => if gate u p then None else Some Unauthorized
      | _, _ => Some Unauthorized
      end
  end.

Fixpoint run (ms : list Middleware) (req : Request) : option Rejection :=
  match ms with
  | [] => None
  | m :: rest =>
      match step m req with
      | Some r => Some r
      | None => run rest req
      end
  end.

Definition dispatch (a : Action) (req : Request) : Outcome :=
  match run (chain a) req with
  | Some r => Rejected r
  | None => Reaches a
  end.

End Gate.

(** A sample decision, for runs of the chains: only the project's owner
    passes. *)
Definition owner_only (u : ObjectId) (p : Project) : bool :=
  Nat.eqb u (manager p).

(** *** The authorization resolver *)

(** The three outcomes of the resolver. *)
Inductive Role :=
| Owner
| Member
| NotOnProject.

(** Modelled from the spec: the body of [hasAuthorization]
    (middleware/task) is not among the sources. Given a resolved account
    and a loaded project the resolver computes one of three roles: the
    owner is the account whose identifier equals the project's
    owning-account identifier, a member is an account present in the
    project's member set, and any other account is unauthorized. *)
Definition resolve (u : ObjectId) (p : Project) : Role :=
  if Nat.eqb u (manager p) then Owner
  else if existsb (Nat.eqb u) (team p) then Member
  else NotOnProject.

(** The operations on a project that the resolver's rules name. *)
Inductive Operation :=
| ListProjects
| GetProject
| ListTasks
| GetTask
| ListNotes
| UpdateTaskStatus
| UpdateProject
| DeleteProject
| CreateTask
| UpdateTask
| DeleteTask
| AddMember
| RemoveMember.


(** Modelled from the spec: what each role is authorized for. The owner is
    authorized for all operations; a member for the read operations and
    for task-status updates, but not for project update or delete, task
    create, update or delete, or team membership changes; an account that
    is neither is rejected for every operation, reads included. [None]
    lets the request through. *)
Definition authorize (r : Role) (o : Operation) : option Rejection :=
  match r with
  | Owner => None
  | Member =>
      match o with
      | ListProjects | GetProject | ListTasks | GetTask | ListNotes => None
      | UpdateTaskStatus => None
      | UpdateProject | DeleteProject => Some Unauthorized
      | CreateTask | UpdateTask | DeleteTask => Some Unauthorized
      | AddMember | RemoveMember => Some Unauthorized
      end
  | NotOnProject => Some Unauthorized
  end.

(** The operation a route serves, for the routes whose operation the
    resolver's rules name. *)
Definition operation_of (a : Action) : option Operation :=
  match a with
  | getAllProjects => Some ListProjects
  | getProjectById => Some GetProject
  | getProjectTasks => Some ListTasks
  | getTaskById => Some GetTask
  | getTaskNotes => Some ListNotes
  | updateStatus => Some UpdateTaskStatus
  | updateProject => Some UpdateProject
  | deleteProject => Some DeleteProject
  | createTask => Some CreateTask
  | updateTask => Some UpdateTask
  | deleteTask => Some DeleteTask
  | addMemberById => Some AddMember
  | removeMemberById => Some RemoveMember
  | _ => None
  end.

(** The decision of [hasAuthorization] where a route lists it: the
    resolver's decision for the operation of that route. *)
Definition hasAuthorization_at (a : Action) (u : ObjectId) (p : Project) : bool :=
  match operation_of a with
  | Some o =>
      match authorize (resolve u p) o with
      | None => true
      | Some _ => false
      end
  | None => true
  end.

(** A request through the chain of its route, as the route file lists it. *)
Definition route (a : Action) (req : Request) : Outcome :=
  dispatch (hasAuthorization_at a) a req.

(** Who an account is on a project. *)
Definition is_owner (u : ObjectId) (p : Project) : Prop := u = manager p.


(** A request of account [u] on project [p] that the steps before the
    gate let through. *)
Definition request_of (u : ObjectId) (p : Project) : Request :=
  mkRequest (Some u) (Some p) true true true.


Definition is_gate (m : Middleware) : bool :=
  match m with
  | hasAuthorization => true
  | _ => false
  end.

(** The routes whose handler list carries the authorization gate. *)
Definition gated (a : Action) : bool := existsb is_gate (handlers a).

(** Account 1 owns the project; account 2 is on its team. *)
Definition project_P : Project := mkProject 1 [2].

End ProjectRoutes.

(** The tokens left once every token of account [uid] is gone. *)
Definition without (uid : ObjectId) (ts : list IToken) : list IToken :=
  filter (fun t => negb (owned_by uid t)) ts.

(** The handler answered with its success message. *)
Definition confirmed_ok (r : Response) : Prop :=
  r = res_send (Message "Cuenta confirmada correctamente").

Definition password_reset_ok (r : Response) : Prop :=
  r = res_send (Message "El password se modificó correctamente").

(** Everything of an account but its password hash. *)
Definition profile (u : IUser) : ObjectId * string * string * bool :=
  (user_id u, user_name u, user_email u, user_confirmed u).

Definition store_inv (w : World) : Prop :=
  wf w /\ one_token_per_account (tokens w).

(** What the stored emails satisfy throughout. *)
Definition emails_inv (w : World) : Prop :=
  emails_normalized (users w) /\ emails_unique (users w).

(** How a stored account may differ from what it was: same [_id], and a
    confirmed account is still confirmed. *)
Definition account_evolves (u u' : IUser) : Prop :=
  user_id u' = user_id u /\ (user_confirmed u = true -> user_confirmed u' = true).

(** The accounts of [us] are all still there in [us'], in place, each
    evolved; [us'] may hold further accounts after them. *)
Definition accounts_evolve (us us' : list IUser) : Prop :=
  exists kept extra, us' = (kept ++ extra)%list /\ Forall2 account_evolves us kept.

(** [l'] is [l] with at most one element appended. *)
Definition appends_at_most_one {A : Type} (l l' : list A) : Prop :=
  l' = l \/ exists x, l' = (l ++ [x])%list.

(** What [confirmAccount] may do to one stored account, given the token
    its lookup returns. *)
Definition confirmed_by (found : option IToken) (u u' : IUser) : Prop :=
  u' = u \/
  (u' = set_confirmed true u /\ exists t, found = Some t /\ token_user t = user_id u).

(** The token save of a request rejects; every other call resolves. *)
Definition env_save_rejects (code : string) : Env :=
  mkEnv code (fun c => match c with Token_save => false | _ => true end).

(** The account save of a request rejects; every other call resolves. *)
Definition env_user_save_rejects (code : string) : Env :=
  mkEnv code (fun c => match c with User_save => false | _ => true end).

(** The two handlers that consume a token answer the invalid-token error
    for the code. *)
Definition code_invalid (hashPassword : string -> string) (env : Env)
  (code password : string) (w : World) : Prop :=
  fst (AuthController.confirmAccount env code w)
  = res_status_json_error 404 "Token no válido" /\
  fst (AuthController.updatePasswordWithToken hashPassword env code password w)
  = res_status_json_error 404 "Token no válido".

(** ** Sample data *)

Definition env_ok (code : string) : Env := mkEnv code (fun _ => true).

Definition env_delete_rejects (code : string) : Env :=
  mkEnv code (fun c => match c with Token_deleteOne => false | _ => true end).

Definition empty_world : World := mkWorld [] [] [] 0.

Definition sample_hash (p : string) : string := "$2b$10$" ++ p.

Definition sample_check (p h : string) : bool := h =? sample_hash p.

Definition sample_jwt (i : ObjectId) : string :=
  "jwt." ++ String (ascii_of_nat (48 + i)) "".

(** Ann has registered and holds the code 123456. *)
Definition ann_world : World :=
  snd (AuthController.createAccount sample_hash (env_ok "123456")
         "Ann" "ann@x.com" "pw123" empty_world).

(** Bob registers after Ann and [generateToken()] returns the same code. *)
Definition ann_bob_world : World :=
  snd (AuthController.createAccount sample_hash (env_ok "123456")
         "Bob" "bob@x.com" "pw456" ann_world).

(** Ann has confirmed her account. *)
Definition ann_confirmed_world : World :=
  snd (AuthController.confirmAccount (env_ok "") "123456" ann_world).

(** ** The lifecycle as a transition system

    One step is one request served from start to finish with no other
    request in between. *)

Inductive lifecycle_step : World -> World -> Prop :=
| step_register hashPassword env name email password w :
    lifecycle_step w
      (snd (AuthController.createAccount hashPassword env name email password w))
| step_confirm env token w :
    lifecycle_step w (snd (AuthController.confirmAccount env token w))
| step_login checkPassword generateJWT env email password w :
    lifecycle_step w
      (snd (AuthController.login checkPassword generateJWT env email password w))
| step_requestNewConfirmationCode env email w :
    lifecycle_step w (snd (AuthController.requestConfirmationCode env email w))
| step_requestPasswordReset env email w :
    lifecycle_step w (snd (AuthController.forgotPassword env email w))
| step_validateResetToken env token w :
    lifecycle_step w (snd (AuthController.validateToken env token w))
| step_resetPassword hashPassword env token password w :
    lifecycle_step w
      (snd (AuthController.updatePasswordWithToken hashPassword env token password w))
| step_updateProfile env req_user name email w :
    lifecycle_step w (snd (AuthController.updateProfile env req_user name email w)).

Inductive reachable (w : World) : World -> Prop :=
| reach_here : reachable w w
| reach_step w1 w2 : reachable w w1 -> lifecycle_step w1 w2 -> reachable w w2.

(** A step issued a token when the new store holds a token the old one did
    not; it deleted the prior ones when no token the account had before is
    still stored. *)
Definition deletes_before_issuing (w w' : World) : Prop :=
  forall new, In new (tokens w') -> ~ In new (tokens w) ->
  forall old, In old (tokens w) -> token_user old = token_user new ->
  ~ In old (tokens w').

(** Every request the controller serves. *)
Inductive controller_step : World -> World -> Prop :=
| step_lifecycle w w' : lifecycle_step w w' -> controller_step w w'
| step_updateCurrentUserPassword hashPassword checkPassword env req_user
    current_password password w :
    controller_step w
      (snd (AuthController.updateCurrentUserPassword hashPassword checkPassword env
              req_user current_password password w))
| step_checkPassword checkPassword env req_user password w :
    controller_step w
      (snd (AuthController.checkPassword' checkPassword env req_user password w)).

Inductive controller_reachable (w : World) : World -> Prop :=
| creach_here : controller_reachable w w
| creach_step w1 w2 :
    controller_reachable w w1 -> controller_step w1 w2 -> controller_reachable w w2.

(** ** Requests that overlap

    An [async] handler gives up control at every [await]: another request
    may run between the moment a persistence call is awaited and the moment
    the handler goes on. A request in flight is either done, with its
    response, or suspended at an [await]; resuming it performs the awaited
    call and runs the handler up to its next [await]. *)

#[warnings="-register-all"] Inductive Proc :=
| Responded (r : Response)
| Suspended (resume : World -> Proc * World).

(** [requestConfirmationCode], await by await: the user lookup, the token
    lookup, the delete of the previous token when there is one, then, with
    the new token made and the email sent, the save of the new token. *)
Definition requestConfirmationCode_async (env : Env) (email : string) : Proc :=
  let thrown := Responded (res_status_json_error 500 "Hubo un error") in
  Suspended (fun w =>
    if resolves env User_findOne then
      match find (has_email email) (users w) with
      | None => (Responded (res_status_json_error 404 "El usuario no está registrado"), w)
      | Some user =>
          if user_confirmed user then
            (Responded (res_status_json_error 403 "El usuario ya está confirmado"), w)
          else
            let issue (w : World) : Proc * World :=
              let token := mkToken (next_id w) (generateToken env) (user_id user) in
              (Suspended (fun w =>
                 if resolves env Token_save then
                   (Responded (res_send (Message "Se envió un nuevo token a tu e-mail")),
                    with_tokens (tokens w ++ [token]) w)
                 else (thrown, w)),
               mkWorld (users w) (tokens w)
                 (outbox w ++ [ConfirmationEmail
                                 (mkEmail (user_email user) (user_name user)
                                    (token_token token))])
                 (S (next_id w))) in
            (Suspended (fun w =>
               if resolves env Token_findOne then
                 match find (owned_by (user_id user)) (tokens w) with
                 | Some previousToken =>
                     (Suspended (fun w =>
                        if resolves env Token_deleteOne then
                          issue (with_tokens
                                   (Token.remove_id (token_id previousToken) (tokens w)) w)
                        else (thrown, w)), w)
                 | None => issue w
                 end
               else (thrown, w)), w)
      end
    else (thrown, w)).

Definition resume_proc (p : Proc) (w : World) : Proc * World :=
  match p with
  | Responded r => (Responded r, w)
  | Suspended resume => resume w
  end.

(** One request served with nothing in between. *)
Fixpoint run_alone (awaits : nat) (p : Proc) (w : World) : option (Response * World) :=
  match p with
  | Responded r => Some (r, w)
  | Suspended resume =>
      match awaits with
      | 0 => None
      | S n => let (p', w') := resume w in run_alone n p' w'
      end
  end.

(** Two requests in flight; the schedule says which one is resumed next. *)
Fixpoint interleave (schedule : list bool) (a b : Proc) (w : World) : Proc * Proc * World :=
  match schedule with
  | [] => (a, b, w)
  | true :: rest => let (a', w') := resume_proc a w in interleave rest a' b w'
  | false :: rest => let (b', w') := resume_proc b w in interleave rest a b' w'
  end.

(** Two requests for a new code for Ann's account, resumed in turn. *)
Definition ann_asks_twice : Proc * Proc * World :=
  interleave [true; false; true; false; true; false; true; false]
    (requestConfirmationCode_async (env_ok "111111") "ann@x.com")
    (requestConfirmationCode_async (env_ok "222222") "ann@x.com")
    ann_world.

(** * Properties *)

(** ** Runs of the lifecycle *)

(** Register, confirm with a wrong code, confirm with the right one, and
    confirm again. *)
Example run_register_confirm :
  users ann_world = [mkUser 0 "Ann" "ann@x.com" "$2b$10$pw123" false] /\
  tokens ann_world = [mkToken 1 "123456" 0] /\
  AuthController.confirmAccount (env_ok "") "000000" ann_world
  = (res_status_json_error 404 "Token no válido", ann_world) /\
  users ann_confirmed_world = [mkUser 0 "Ann" "ann@x.com" "$2b$10$pw123" true] /\
  tokens ann_confirmed_world = [] /\
  failure (fst (AuthController.confirmAccount (env_ok "") "123456" ann_confirmed_world))
  = Some InvalidToken.
Proof. repeat split. Qed.

(** A login before confirming replaces the token; the old code is no
    longer accepted and the new one is. *)
Example run_login_before_confirming :
  let w := snd (AuthController.login sample_check sample_jwt (env_ok "654321")
                  "ann@x.com" "pw123" ann_world) in
  tokens w = [mkToken 2 "654321" 0] /\
  failure (fst (AuthController.confirmAccount (env_ok "") "123456" w)) = Some InvalidToken /\
  fst (AuthController.confirmAccount (env_ok "") "654321" w)
  = res_send (Message "Cuenta confirmada correctamente").
Proof. repeat split. Qed.

(** Once confirmed, the right password yields a credential and a wrong one
    does not. *)
Example run_login_confirmed :
  fst (AuthController.login sample_check sample_jwt (env_ok "") "Ann@x.com" "pw123"
         ann_confirmed_world)
  = res_send (Jwt "jwt.0") /\
  failure (fst (AuthController.login sample_check sample_jwt (env_ok "") "ann@x.com" "nope"
                  ann_confirmed_world))
  = Some InvalidPassword.
Proof. repeat split. Qed.

(** ** Letter case *)

Lemma lower_ascii_idem (c : ascii) : lower_ascii (lower_ascii c) = lower_ascii c.
Proof.
  destruct c as [[] [] [] [] [] [] [] []]; reflexivity.
Qed.

Lemma lower_ascii_fix (c : ascii) : is_upper c = false -> lower_ascii c = c.
Proof.
  unfold lower_ascii. intros ->. reflexivity.
Qed.

Lemma same_letter_lower (a b : ascii) : same_letter a b -> lower_ascii a = lower_ascii b.
Proof.
  intros [-> | [[_ ->] | [_ ->]]].
  - reflexivity.
  - symmetry. apply lower_ascii_idem.
  - apply lower_ascii_idem.
Qed.

Lemma eq_nocase_toLowerCase (s1 s2 : string) :
  eq_nocase s1 s2 -> toLowerCase s1 = toLowerCase s2.
Proof.
  revert s2. induction s1 as [|a r1 IH]; intros [|b r2]; simpl; try tauto.
  intros [Hab Hr]. rewrite (same_letter_lower _ _ Hab), (IH _ Hr). reflexivity.
Qed.

Lemma toLowerCase_idem (s : string) : toLowerCase (toLowerCase s) = toLowerCase s.
Proof.
  induction s as [|c r IH]; simpl; [reflexivity|].
  rewrite lower_ascii_idem, IH. reflexivity.
Qed.

Lemma eq_nocase_refl (s : string) : eq_nocase s s.
Proof.
  induction s as [|c r IH]; simpl; [exact I|].
  split; [left; reflexivity | exact IH].
Qed.

Lemma eq_nocase_lower (s : string) : eq_nocase s (toLowerCase s).
Proof.
  induction s as [|c r IH]; simpl; [exact I|].
  split; [|exact IH].
  destruct (is_upper c) eqn:Hc.
  - right; left. split; [exact Hc | reflexivity].
  - left. symmetry. apply lower_ascii_fix, Hc.
Qed.

(** ** Lists of documents *)

Lemma NoDup_map_inj {A B : Type} (f : A -> B) (l : list A) (x y : A) :
  NoDup (map f l) -> In x l -> In y l -> f x = f y -> x = y.
Proof.
  induction l as [|a l IH]; simpl; intros Hnd Hx Hy Heq; [tauto|].
  inversion Hnd as [|? ? Hnotin Hnd']; subst.
  destruct Hx as [-> | Hx], Hy as [<- | Hy]; try reflexivity.
  - exfalso. apply Hnotin. rewrite Heq. apply in_map. exact Hy.
  - exfalso. apply Hnotin. rewrite <- Heq. apply in_map. exact Hx.
  - exact (IH Hnd' Hx Hy Heq).
Qed.

Lemma remove_id_incl (i : ObjectId) (ts : list IToken) (x : IToken) :
  In x (Token.remove_id i ts) -> In x ts.
Proof.
  induction ts as [|t ts IH]; simpl; [tauto|].
  destruct (Nat.eqb (token_id t) i); simpl; tauto.
Qed.

Lemma remove_id_not_in (t : IToken) (ts : list IToken) :
  NoDup (map token_id ts) -> ~ In t (Token.remove_id (token_id t) ts).
Proof.
  induction ts as [|a ts IH]; simpl; intros Hnd; [tauto|].
  inversion Hnd as [|? ? Hnotin Hnd']; subst.
  destruct (Nat.eqb_spec (token_id a) (token_id t)) as [Heq|Hne].
  - intros Hin. apply Hnotin. rewrite Heq. apply in_map. exact Hin.
  - simpl. intros [-> | Hin]; [congruence | exact (IH Hnd' Hin)].
Qed.

Lemma remove_id_NoDup (i : ObjectId) (ts : list IToken) :
  NoDup (map token_id ts) -> NoDup (map token_id (Token.remove_id i ts)).
Proof.
  induction ts as [|a ts IH]; simpl; intros Hnd; [constructor|].
  inversion Hnd as [|? ? Hnotin Hnd']; subst.
  destruct (Nat.eqb (token_id a) i); [exact Hnd'|].
  simpl. constructor; [|exact (IH Hnd')].
  intros Hin. apply Hnotin. apply in_map_iff in Hin. destruct Hin as [x [Hx Hin]].
  apply in_map_iff. exists x. split; [exact Hx | exact (remove_id_incl _ _ _ Hin)].
Qed.

(** Unfolding one handler down to the persistence calls. *)
Ltac unfold_handler :=
  unfold try_catch, no_catch, allSettled, settled, bind, ret, return_, throw,
    User.findOne, User.findById, User.save, User.save_new,
    Token.findOne, Token.findOne_user, Token.save, Token.deleteOne,
    AuthEmail.sendConfirmationEmail, AuthEmail.sendPasswordResetToken,
    new_ObjectId, await.

(** ** validateToken *)

(** C7. [validateToken] answers InvalidToken when no stored token carries
    the code, and whatever it answers it leaves the world (accounts,
    tokens, outbox) exactly as it was. *)
Theorem validateToken_read_only (env : Env) (token : string) (w : World) :
  snd (AuthController.validateToken env token w) = w /\
  (resolves env Token_findOne = true ->
   (forall t, In t (tokens w) -> token_token t <> token) ->
   failure (fst (AuthController.validateToken env token w)) = Some InvalidToken) /\
  (resolves env Token_findOne = true ->
   (exists t, In t (tokens w) /\ token_token t = token) ->
   failure (fst (AuthController.validateToken env token w)) = None).
Proof.
  unfold AuthController.validateToken. unfold_handler.
  destruct (resolves env Token_findOne); simpl.
  - destruct (find (has_code token) (tokens w)) as [t|] eqn:Hfind; simpl.
    + split; [reflexivity|]. split; intros _ H; [|reflexivity].
      apply find_some in Hfind. destruct Hfind as [Hin Hc].
      exfalso. apply (H t Hin). apply String.eqb_eq. exact Hc.
    + split; [reflexivity|]. split; intros _ H; [reflexivity|].
      destruct H as [t [Hin Ht]]. pose proof (find_none _ _ Hfind t Hin) as Hf.
      unfold has_code in Hf. rewrite Ht, String.eqb_refl in Hf. discriminate.
  - split; [reflexivity|]. split; intros H; discriminate.
Qed.

Lemma filter_negb_all {A : Type} (p : A -> bool) (l : list A) :
  filter p l = [] -> filter (fun x => negb (p x)) l = l.
Proof.
  induction l as [|a l IH]; simpl; [reflexivity|].
  destruct (p a); [discriminate|]. simpl. intros H. f_equal. exact (IH H).
Qed.

(** Deleting the one document a [findOne] returned leaves no document
    matching the filter, when at most one matched. *)
Lemma remove_found (p : IToken -> bool) (ts : list IToken) :
  NoDup (map token_id ts) ->
  length (filter p ts) <= 1 ->
  match find p ts with
  | Some t => Token.remove_id (token_id t) ts
  | None => ts
  end = filter (fun t => negb (p t)) ts.
Proof.
  induction ts as [|a ts IH]; intros Hnd Hone; [reflexivity|].
  inversion Hnd as [|? ? Hnotin Hnd']; subst.
  simpl in *. destruct (p a) eqn:Ha; simpl in *.
  - rewrite Nat.eqb_refl. symmetry. apply filter_negb_all.
    destruct (filter p ts); [reflexivity | simpl in Hone; lia].
  - specialize (IH Hnd' Hone).
    destruct (find p ts) as [t|] eqn:Hfind.
    + apply find_some in Hfind. destruct Hfind as [Hin _].
      destruct (Nat.eqb_spec (token_id a) (token_id t)) as [Heq|Hne].
      * exfalso. apply Hnotin. rewrite Heq. apply in_map. exact Hin.
      * f_equal. exact IH.
    + f_equal. exact IH.
Qed.

Lemma delete_previous (uid : ObjectId) (ts : list IToken) :
  NoDup (map token_id ts) ->
  one_token_per_account ts ->
  match find (owned_by uid) ts with
  | Some t => Token.remove_id (token_id t) ts
  | None => ts
  end = without uid ts.
Proof.
  intros Hnd Hone. apply remove_found; [exact Hnd | exact (Hone uid)].
Qed.

Lemma find_filter_negb {A : Type} (p : A -> bool) (l : list A) :
  find p (filter (fun x => negb (p x)) l) = None.
Proof.
  induction l as [|a l IH]; simpl; [reflexivity|].
  destruct (p a) eqn:Ha; simpl; [exact IH|]. rewrite Ha. exact IH.
Qed.

(** ** requestConfirmationCode *)

(** C6. With the persistence calls resolving, [requestConfirmationCode]
    answers UnknownEmail when no account has the email and
    AlreadyConfirmed when the account is confirmed, both without touching
    the world; otherwise no prior token of the account is left, exactly one
    new token is stored for it, and that token is sent in one confirmation
    email. *)
Theorem requestConfirmationCode_spec (env : Env) (email : string) (w : World) :
  all_resolve env ->
  wf w ->
  one_token_per_account (tokens w) ->
  let r := fst (AuthController.requestConfirmationCode env email w) in
  let w' := snd (AuthController.requestConfirmationCode env email w) in
  match find (has_email email) (users w) with
  | None => failure r = Some UnknownEmail /\ w' = w
  | Some u =>
      if user_confirmed u
      then failure r = Some AlreadyConfirmed /\ w' = w
      else
        r = res_send (Message "Se envió un nuevo token a tu e-mail") /\
        users w' = users w /\
        tokens w' =
          (without (user_id u) (tokens w)
           ++ [mkToken (next_id w) (generateToken env) (user_id u)])%list /\
        outbox w' =
          (outbox w
           ++ [ConfirmationEmail (mkEmail (user_email u) (user_name u) (generateToken env))])%list
  end.
Proof.
  intros Hres Hwf Hone. unfold AuthController.requestConfirmationCode. unfold_handler.
  rewrite !Hres. simpl.
  destruct (find (has_email email) (users w)) as [u|] eqn:Hu; simpl.
  - destruct (user_confirmed u) eqn:Hc; simpl.
    + split; reflexivity.
    + pose proof (delete_previous (user_id u) (tokens w) (wf_token_ids w Hwf) Hone) as Hdel.
      destruct (find (owned_by (user_id u)) (tokens w)) as [t|]; simpl;
        rewrite <- Hdel; repeat split; reflexivity.
  - split; reflexivity.
Qed.

Lemma all_resolve_env_ok (code : string) : all_resolve (env_ok code).
Proof. intros c. reflexivity. Qed.

Lemma ann_world_wf : wf ann_world.
Proof.
  split; simpl.
  - repeat constructor; simpl; tauto.
  - repeat constructor; simpl; tauto.
  - intros t [<- | []]; simpl; lia.
  - intros u [<- | []]; simpl; lia.
Qed.

Lemma ann_world_one_token : one_token_per_account (tokens ann_world).
Proof.
  intros uid. unfold tokens_of, owned_by. cbn.
  destruct uid; cbn; lia.
Qed.

Lemma requestConfirmationCode_spec_witness :
  let w' := snd (AuthController.requestConfirmationCode (env_ok "654321") "Ann@X.com" ann_world) in
  tokens w' = [mkToken 2 "654321" 0] /\
  outbox w' = [ConfirmationEmail (mkEmail "ann@x.com" "Ann" "123456");
               ConfirmationEmail (mkEmail "ann@x.com" "Ann" "654321")].
Proof.
  pose proof (requestConfirmationCode_spec (env_ok "654321") "Ann@X.com" ann_world
                (all_resolve_env_ok "654321") ann_world_wf ann_world_one_token) as H.
  simpl in H. destruct H as [_ [_ [Ht Ho]]]. split; [exact Ht | exact Ho].
Defined.

Lemma validateToken_read_only_witness :
  snd (AuthController.validateToken (env_ok "") "000000" ann_world) = ann_world /\
  failure (fst (AuthController.validateToken (env_ok "") "000000" ann_world)) = Some InvalidToken.
Proof.
  destruct (validateToken_read_only (env_ok "") "000000" ann_world) as [Hsame [Hinv _]].
  split; [exact Hsame|]. apply Hinv; [reflexivity|].
  intros t [<- | []]. simpl. discriminate.
Defined.

(** ** login *)

(** C2. A login naming an existing, unconfirmed account never answers with
    a session credential; with the persistence calls resolving it answers
    AccountNotConfirmed, leaves no prior token of the account, stores
    exactly one new token for it and makes exactly one confirmation-email
    send carrying that token. *)
Theorem login_unconfirmed
  (checkPassword : string -> string -> bool) (generateJWT : ObjectId -> string)
  (env : Env) (email password : string) (w : World) (u : IUser) :
  find (has_email email) (users w) = Some u ->
  user_confirmed u = false ->
  let r := fst (AuthController.login checkPassword generateJWT env email password w) in
  let w' := snd (AuthController.login checkPassword generateJWT env email password w) in
  is_credential r = false /\
  (all_resolve env -> wf w -> one_token_per_account (tokens w) ->
   failure r = Some AccountNotConfirmed /\
   users w' = users w /\
   tokens w' =
     (without (user_id u) (tokens w)
      ++ [mkToken (next_id w) (generateToken env) (user_id u)])%list /\
   outbox w' =
     (outbox w
      ++ [ConfirmationEmail (mkEmail (user_email u) (user_name u) (generateToken env))])%list).
Proof.
  intros Hu Hc. unfold AuthController.login. unfold_handler.
  split.
  - destruct (resolves env User_findOne); simpl; [|reflexivity].
    rewrite Hu, Hc. simpl.
    destruct (resolves env Token_findOne); simpl; [|reflexivity].
    destruct (find (owned_by (user_id u)) (tokens w)) as [t|]; simpl;
      destruct (resolves env Token_deleteOne); simpl;
      destruct (resolves env Token_save); simpl; reflexivity.
  - intros Hres Hwf Hone. rewrite !Hres. simpl. rewrite Hu, Hc. simpl.
    pose proof (delete_previous (user_id u) (tokens w) (wf_token_ids w Hwf) Hone) as Hdel.
    destruct (find (owned_by (user_id u)) (tokens w)) as [t|]; simpl;
      rewrite <- Hdel; repeat split; reflexivity.
Qed.

Lemma login_unconfirmed_witness :
  let run := AuthController.login sample_check sample_jwt (env_ok "654321")
               "ann@x.com" "pw123" ann_world in
  is_credential (fst run) = false /\
  failure (fst run) = Some AccountNotConfirmed /\
  tokens (snd run) = [mkToken 2 "654321" 0].
Proof.
  destruct (login_unconfirmed sample_check sample_jwt (env_ok "654321")
              "ann@x.com" "pw123" ann_world (mkUser 0 "Ann" "ann@x.com" "$2b$10$pw123" false)
              eq_refl eq_refl) as [Hcred Hrest].
  destruct (Hrest (all_resolve_env_ok "654321") ann_world_wf ann_world_one_token)
    as [Hfail [_ [Htok _]]].
  split; [exact Hcred|]. split; [exact Hfail | exact Htok].
Defined.

(** ** Saving a loaded user document *)

Lemma update_map {B : Type} (g : IUser -> B) (i : ObjectId) (f : IUser -> IUser)
  (us : list IUser) :
  (forall v, g (f v) = g v) -> map g (User.update i f us) = map g us.
Proof.
  intros Hg. induction us as [|v us IH]; simpl; [reflexivity|].
  destruct (Nat.eqb (user_id v) i); simpl; [rewrite Hg; reflexivity | rewrite IH; reflexivity].
Qed.

Lemma find_update (i : ObjectId) (f : IUser -> IUser) (us : list IUser) :
  (forall v, user_id (f v) = user_id v) ->
  find (has_id i) (User.update i f us) = option_map f (find (has_id i) us).
Proof.
  intros Hf. induction us as [|v us IH]; simpl; [reflexivity|].
  unfold has_id at 2. destruct (Nat.eqb (user_id v) i) eqn:Hv; simpl.
  - unfold has_id. rewrite Hf, Hv. reflexivity.
  - unfold has_id at 1. rewrite Hv. exact IH.
Qed.

Lemma update_other (i : ObjectId) (f : IUser -> IUser) (us : list IUser) (v : IUser) :
  In v us -> user_id v <> i -> In v (User.update i f us).
Proof.
  intros Hin Hne. induction us as [|a us IH]; simpl in *; [tauto|].
  destruct (Nat.eqb_spec (user_id a) i) as [Heq|Hneq]; simpl.
  - destruct Hin as [-> | Hin]; [congruence | right; exact Hin].
  - destruct Hin as [-> | Hin]; [left; reflexivity | right; exact (IH Hin)].
Qed.

Lemma remove_id_other (i : ObjectId) (ts : list IToken) (x : IToken) :
  In x ts -> token_id x <> i -> In x (Token.remove_id i ts).
Proof.
  intros Hin Hne. induction ts as [|a ts IH]; simpl in *; [tauto|].
  destruct (Nat.eqb_spec (token_id a) i) as [Heq|Hneq]; simpl.
  - destruct Hin as [-> | Hin]; [congruence | exact Hin].
  - destruct Hin as [-> | Hin]; [left; reflexivity | right; exact (IH Hin)].
Qed.

Lemma set_confirmed_id (b : bool) (v : IUser) : user_id (set_confirmed b v) = user_id v.
Proof. reflexivity. Qed.

Lemma set_password_id (h : string) (v : IUser) : user_id (set_password h v) = user_id v.
Proof. reflexivity. Qed.

Lemma has_id_eq (i : ObjectId) (u : IUser) : has_id i u = true -> user_id u = i.
Proof. unfold has_id. apply Nat.eqb_eq. Qed.

(** ** confirmAccount *)

(** C3, as stated, fails: when the account save resolves and the token
    delete rejects, the answer is still the success message, the account is
    Confirmed and its token is still stored. *)
Lemma confirmAccount_not_atomic :
  let run := AuthController.confirmAccount (env_delete_rejects "") "123456" ann_world in
  fst run = res_send (Message "Cuenta confirmada correctamente") /\
  users (snd run) = [mkUser 0 "Ann" "ann@x.com" "$2b$10$pw123" true] /\
  users (snd run) <> users ann_world /\
  In (mkToken 1 "123456" 0) (tokens (snd run)).
Proof.
  vm_compute. repeat split; [discriminate | left; reflexivity].
Qed.

(** C3, amended. [confirmAccount] answers InvalidToken and changes nothing
    when no stored token carries the code. When one does and its account
    exists, the answer is the success message and the two writes are
    settled independently: the account becomes Confirmed exactly when its
    save resolves, and the token is deleted exactly when its delete
    resolves; with both resolving the account is Confirmed and the token is
    gone. *)
Theorem confirmAccount_best_effort (env : Env) (token : string) (w : World) :
  resolves env Token_findOne = true ->
  resolves env User_findById = true ->
  wf w ->
  let r := fst (AuthController.confirmAccount env token w) in
  let w' := snd (AuthController.confirmAccount env token w) in
  match find (has_code token) (tokens w) with
  | None => failure r = Some InvalidToken /\ w' = w
  | Some t =>
      match find (has_id (token_user t)) (users w) with
      | None => failure r = Some InternalFailure /\ w' = w
      | Some u =>
          r = res_send (Message "Cuenta confirmada correctamente") /\
          outbox w' = outbox w /\
          (if resolves env User_save
           then find (has_id (token_user t)) (users w') = Some (set_confirmed true u) /\
                (forall v, In v (users w) -> user_id v <> token_user t -> In v (users w'))
           else users w' = users w) /\
          (if resolves env Token_deleteOne
           then ~ In t (tokens w') /\
                (forall x, In x (tokens w) -> x <> t -> In x (tokens w'))
           else tokens w' = tokens w)
      end
  end.
Proof.
  intros Hfind Hbyid Hwf. unfold AuthController.confirmAccount. unfold_handler.
  rewrite Hfind, Hbyid. simpl.
  destruct (find (has_code token) (tokens w)) as [t|] eqn:Ht; simpl; [|split; reflexivity].
  destruct (find (has_id (token_user t)) (users w)) as [u|] eqn:Hu; simpl; [|split; reflexivity].
  pose proof (has_id_eq _ _ (proj2 (find_some _ _ Hu))) as Hid.
  apply find_some in Ht. destruct Ht as [Htin _].
  assert (Hdel : ~ In t (Token.remove_id (token_id t) (tokens w)) /\
                 (forall x, In x (tokens w) -> x <> t ->
                            In x (Token.remove_id (token_id t) (tokens w)))).
  { split; [apply remove_id_not_in, (wf_token_ids w Hwf)|].
    intros x Hx Hne. apply remove_id_other; [exact Hx|].
    intros Heq. apply Hne.
    exact (NoDup_map_inj token_id (tokens w) x t (wf_token_ids w Hwf) Hx Htin Heq). }
  assert (Hsave : find (has_id (token_user t))
                    (User.update (user_id u) (set_confirmed true) (users w))
                  = Some (set_confirmed true u) /\
                  (forall v, In v (users w) -> user_id v <> token_user t ->
                             In v (User.update (user_id u) (set_confirmed true) (users w)))).
  { rewrite Hid. split.
    - rewrite find_update by apply set_confirmed_id. rewrite Hu. reflexivity.
    - intros v Hv Hne. apply update_other; assumption. }
  destruct (resolves env User_save), (resolves env Token_deleteOne); simpl;
    repeat split; try reflexivity; try apply Hsave; try apply Hdel.
Qed.

Lemma confirmAccount_best_effort_witness :
  let run := AuthController.confirmAccount (env_ok "") "123456" ann_world in
  fst run = res_send (Message "Cuenta confirmada correctamente") /\
  find (has_id 0) (users (snd run)) = Some (mkUser 0 "Ann" "ann@x.com" "$2b$10$pw123" true) /\
  ~ In (mkToken 1 "123456" 0) (tokens (snd run)).
Proof.
  pose proof (confirmAccount_best_effort (env_ok "") "123456" ann_world
                eq_refl eq_refl ann_world_wf) as H.
  simpl in H. destruct H as [Hr [_ [[Hu _] [Ht _]]]].
  split; [exact Hr|]. split; [exact Hu | exact Ht].
Defined.

(** ** Single use of a token *)

(** C4, as stated, fails: two accounts can hold the same code, and then the
    same value is accepted twice, by [confirmAccount] and by
    [updatePasswordWithToken] alike, with every persistence call
    resolving. *)
Lemma same_code_accepted_twice :
  let first := AuthController.confirmAccount (env_ok "") "123456" ann_bob_world in
  let second := AuthController.confirmAccount (env_ok "") "123456" (snd first) in
  let first' := AuthController.updatePasswordWithToken sample_hash (env_ok "")
                  "123456" "new1" ann_bob_world in
  let second' := AuthController.updatePasswordWithToken sample_hash (env_ok "")
                   "123456" "new2" (snd first') in
  (confirmed_ok (fst first) /\ confirmed_ok (fst second) /\
   failure (fst second) <> Some InvalidToken) /\
  (password_reset_ok (fst first') /\ password_reset_ok (fst second') /\
   failure (fst second') <> Some InvalidToken).
Proof.
  vm_compute. repeat split; discriminate.
Qed.

Lemma consumed_code (code : string) (ts : list IToken) (t : IToken) :
  NoDup (map token_id ts) ->
  length (filter (has_code code) ts) <= 1 ->
  find (has_code code) ts = Some t ->
  find (has_code code) (Token.remove_id (token_id t) ts) = None.
Proof.
  intros Hnd Hone Hfind.
  pose proof (remove_found (has_code code) ts Hnd Hone) as H. rewrite Hfind in H.
  rewrite H. apply find_filter_negb.
Qed.

(** C4, amended. When at most one stored token carries the code, a
    [confirmAccount] (or [updatePasswordWithToken]) that answered success
    and whose token delete resolved is followed, for the same code, by
    InvalidToken. *)
Theorem token_consumed_once
  (hashPassword : string -> string) (env1 env2 : Env) (code password1 password2 : string)
  (w : World) :
  wf w ->
  length (filter (has_code code) (tokens w)) <= 1 ->
  resolves env1 Token_deleteOne = true ->
  resolves env2 Token_findOne = true ->
  (let first := AuthController.confirmAccount env1 code w in
   confirmed_ok (fst first) ->
   failure (fst (AuthController.confirmAccount env2 code (snd first))) = Some InvalidToken) /\
  (let first := AuthController.updatePasswordWithToken hashPassword env1 code password1 w in
   password_reset_ok (fst first) ->
   failure (fst (AuthController.updatePasswordWithToken hashPassword env2 code password2
                   (snd first))) = Some InvalidToken).
Proof.
  intros Hwf Hone Hdel Hfind2.
  pose proof (consumed_code code (tokens w)) as Hgone.
  split.
  - unfold AuthController.confirmAccount, confirmed_ok. unfold_handler.
    rewrite Hdel, Hfind2.
    destruct (resolves env1 Token_findOne); simpl; [|discriminate].
    destruct (find (has_code code) (tokens w)) as [t|] eqn:Ht; simpl; [|discriminate].
    destruct (resolves env1 User_findById); simpl; [|discriminate].
    destruct (find (has_id (token_user t)) (users w)) as [u|]; simpl; [|discriminate].
    intros _.
    destruct (resolves env1 User_save); simpl;
      rewrite (Hgone t (wf_token_ids w Hwf) Hone eq_refl); reflexivity.
  - unfold AuthController.updatePasswordWithToken, password_reset_ok. unfold_handler.
    rewrite Hdel, Hfind2.
    destruct (resolves env1 Token_findOne); simpl; [|discriminate].
    destruct (find (has_code code) (tokens w)) as [t|] eqn:Ht; simpl; [|discriminate].
    destruct (resolves env1 User_findById); simpl; [|discriminate].
    destruct (find (has_id (token_user t)) (users w)) as [u|]; simpl; [|discriminate].
    intros _.
    destruct (resolves env1 User_save); simpl;
      rewrite (Hgone t (wf_token_ids w Hwf) Hone eq_refl); reflexivity.
Qed.

Lemma token_consumed_once_witness :
  failure (fst (AuthController.confirmAccount (env_ok "") "123456"
                  (snd (AuthController.confirmAccount (env_ok "") "123456" ann_world))))
  = Some InvalidToken /\
  failure (fst (AuthController.updatePasswordWithToken sample_hash (env_ok "") "123456" "b"
                  (snd (AuthController.updatePasswordWithToken sample_hash (env_ok "")
                          "123456" "a" ann_world))))
  = Some InvalidToken.
Proof.
  assert (Hone : length (filter (has_code "123456") (tokens ann_world)) <= 1)
    by (simpl; lia).
  destruct (token_consumed_once sample_hash (env_ok "") (env_ok "") "123456" "a" "b"
              ann_world ann_world_wf Hone eq_refl eq_refl) as [Hc Hp].
  split; [apply Hc | apply Hp]; reflexivity.
Defined.

(** ** Password reset *)

(** C10. [forgotPassword] looks at no confirmation state: for any existing
    account it leaves no prior token, stores one new token and sends it in
    a password-reset email. [updatePasswordWithToken] with a live token
    answers success, leaves the identifier, name, email and confirmed flag
    of every account as they were and every other account untouched; when
    its writes resolve, the account's password is the new hash and the
    token is gone. *)
Theorem password_reset_frame
  (hashPassword : string -> string) (env : Env) (email code password : string)
  (w : World) (u : IUser) :
  all_resolve env ->
  wf w ->
  one_token_per_account (tokens w) ->
  (find (has_email email) (users w) = Some u ->
   let r := fst (AuthController.forgotPassword env email w) in
   let w' := snd (AuthController.forgotPassword env email w) in
   r = res_send (Message "Revisa tu email para instrucciones") /\
   users w' = users w /\
   tokens w' =
     (without (user_id u) (tokens w)
      ++ [mkToken (next_id w) (generateToken env) (user_id u)])%list /\
   outbox w' =
     (outbox w
      ++ [PasswordResetToken (mkEmail (user_email u) (user_name u) (generateToken env))])%list) /\
  (forall t,
   find (has_code code) (tokens w) = Some t ->
   find (has_id (token_user t)) (users w) = Some u ->
   let r := fst (AuthController.updatePasswordWithToken hashPassword env code password w) in
   let w' := snd (AuthController.updatePasswordWithToken hashPassword env code password w) in
   password_reset_ok r /\
   map profile (users w') = map profile (users w) /\
   (forall v, In v (users w) -> user_id v <> token_user t -> In v (users w')) /\
   find (has_id (token_user t)) (users w') = Some (set_password (hashPassword password) u) /\
   ~ In t (tokens w') /\
   (forall x, In x (tokens w) -> x <> t -> In x (tokens w')) /\
   outbox w' = outbox w).
Proof.
  intros Hres Hwf Hone. split.
  - intros Hu. unfold AuthController.forgotPassword. unfold_handler.
    rewrite !Hres. simpl. rewrite Hu. simpl.
    pose proof (delete_previous (user_id u) (tokens w) (wf_token_ids w Hwf) Hone) as Hdel.
    destruct (find (owned_by (user_id u)) (tokens w)) as [t|]; simpl;
      rewrite <- Hdel; repeat split; reflexivity.
  - intros t Ht Hu. unfold AuthController.updatePasswordWithToken, password_reset_ok.
    unfold_handler. rewrite !Hres. simpl. rewrite Ht. simpl. rewrite Hu. simpl.
    pose proof (has_id_eq _ _ (proj2 (find_some _ _ Hu))) as Hid.
    apply find_some in Ht. destruct Ht as [Htin _].
    rewrite Hid. repeat split.
    + apply update_map. reflexivity.
    + intros v Hv Hne. apply update_other; assumption.
    + rewrite find_update by apply set_password_id. rewrite Hu. reflexivity.
    + apply remove_id_not_in, (wf_token_ids w Hwf).
    + intros x Hx Hne. apply remove_id_other; [exact Hx|].
      intros Heq. apply Hne.
      exact (NoDup_map_inj token_id (tokens w) x t (wf_token_ids w Hwf) Hx Htin Heq).
Qed.

(** Whatever resolves or rejects, [updatePasswordWithToken] changes no
    identifier, name, email or confirmed flag. *)
Lemma updatePasswordWithToken_profiles
  (hashPassword : string -> string) (env : Env) (code password : string) (w : World) :
  map profile (users (snd (AuthController.updatePasswordWithToken hashPassword env code password w)))
  = map profile (users w).
Proof.
  unfold AuthController.updatePasswordWithToken. unfold_handler.
  destruct (resolves env Token_findOne); simpl; [|reflexivity].
  destruct (find (has_code code) (tokens w)) as [t|]; simpl; [|reflexivity].
  destruct (resolves env User_findById); simpl; [|reflexivity].
  destruct (find (has_id (token_user t)) (users w)) as [u|]; simpl; [|reflexivity].
  destruct (resolves env User_save), (resolves env Token_deleteOne); simpl;
    try reflexivity; apply update_map; reflexivity.
Qed.

Lemma ann_confirmed_world_wf : wf ann_confirmed_world.
Proof.
  split; simpl.
  - constructor.
  - repeat constructor; simpl; tauto.
  - intros t [].
  - intros u [<- | []]; simpl; lia.
Qed.

Lemma password_reset_frame_witness :
  tokens (snd (AuthController.forgotPassword (env_ok "777777") "ann@x.com"
                 ann_confirmed_world))
  = [mkToken 2 "777777" 0] /\
  find (has_id 0)
    (users (snd (AuthController.updatePasswordWithToken sample_hash (env_ok "")
                   "123456" "new" ann_world)))
  = Some (mkUser 0 "Ann" "ann@x.com" "$2b$10$new" false).
Proof.
  assert (Hone : one_token_per_account (tokens ann_confirmed_world))
    by (intros uid; simpl; lia).
  destruct (password_reset_frame sample_hash (env_ok "777777") "ann@x.com" "" ""
              ann_confirmed_world (mkUser 0 "Ann" "ann@x.com" "$2b$10$pw123" true)
              (all_resolve_env_ok "777777") ann_confirmed_world_wf Hone) as [Hforgot _].
  destruct (password_reset_frame sample_hash (env_ok "") "" "123456" "new"
              ann_world (mkUser 0 "Ann" "ann@x.com" "$2b$10$pw123" false)
              (all_resolve_env_ok "") ann_world_wf ann_world_one_token) as [_ Hreset].
  split.
  - exact (proj1 (proj2 (proj2 (Hforgot eq_refl)))).
  - exact (proj1 (proj2 (proj2 (proj2 (Hreset (mkToken 1 "123456" 0) eq_refl eq_refl))))).
Defined.

(** ** Duplicate emails *)

Lemma find_snoc {A : Type} (p : A -> bool) (l : list A) (x : A) :
  find p (l ++ [x]) =
  match find p l with
  | Some y => Some y
  | None => if p x then Some x else None
  end.
Proof.
  induction l as [|a l IH]; simpl; [reflexivity|].
  destruct (p a); [reflexivity | exact IH].
Qed.

Lemma has_email_nocase (e1 e2 : string) (u : IUser) :
  eq_nocase e1 e2 -> has_email e1 u = has_email e2 u.
Proof.
  intros H. unfold has_email, email_setter. rewrite (eq_nocase_toLowerCase _ _ H). reflexivity.
Qed.

Lemma find_has_email_nocase (e1 e2 : string) (us : list IUser) :
  eq_nocase e1 e2 -> find (has_email e1) us = find (has_email e2) us.
Proof.
  intros H. induction us as [|a us IH]; simpl; [reflexivity|].
  rewrite (has_email_nocase e1 e2 a H), IH. reflexivity.
Qed.

Lemma has_email_self (e : string) (i : ObjectId) (n p : string) (c : bool) :
  has_email e (mkUser i n (email_setter e) p c) = true.
Proof.
  unfold has_email. simpl. apply String.eqb_refl.
Qed.

(** C8. [createAccount] answers DuplicateEmail and creates neither account
    nor token whenever a stored account's email equals the submitted one up
    to letter case; in particular, once an email has been registered,
    registering any email equal to it up to letter case fails so. *)
Theorem createAccount_duplicate
  (hashPassword : string -> string) (env : Env) (name email password : string) (w : World) :
  resolves env User_findOne = true ->
  (emails_normalized (users w) ->
   (exists u, In u (users w) /\ eq_nocase (user_email u) email) ->
   failure (fst (AuthController.createAccount hashPassword env name email password w))
   = Some DuplicateEmail /\
   snd (AuthController.createAccount hashPassword env name email password w) = w) /\
  (forall env1 name1 email1 password1 w0,
   all_resolve env1 ->
   eq_nocase email1 email ->
   w = snd (AuthController.createAccount hashPassword env1 name1 email1 password1 w0) ->
   failure (fst (AuthController.createAccount hashPassword env name email password w))
   = Some DuplicateEmail /\
   snd (AuthController.createAccount hashPassword env name email password w) = w).
Proof.
  intros Hres.
  assert (Hfound : forall u, find (has_email email) (users w) = Some u ->
            failure (fst (AuthController.createAccount hashPassword env name email password w))
            = Some DuplicateEmail /\
            snd (AuthController.createAccount hashPassword env name email password w) = w).
  { intros u Hu. unfold AuthController.createAccount. unfold_handler.
    rewrite Hres. simpl. rewrite Hu. simpl. split; reflexivity. }
  split.
  - intros Hnorm [u [Hin Hcase]].
    destruct (find (has_email email) (users w)) as [v|] eqn:Hv; [exact (Hfound v eq_refl)|].
    exfalso. pose proof (find_none _ _ Hv u Hin) as Hf.
    unfold has_email, email_setter in Hf.
    rewrite <- (eq_nocase_toLowerCase _ _ Hcase) in Hf.
    rewrite (Hnorm u Hin) in Hf at 1. unfold email_setter in Hf.
    rewrite String.eqb_refl in Hf. discriminate.
  - intros env1 name1 email1 password1 w0 Hres1 Hcase Hw.
    assert (Hsome : exists v, find (has_email email) (users w) = Some v).
    { rewrite Hw. rewrite <- (find_has_email_nocase email1 email _ Hcase).
      unfold AuthController.createAccount. unfold_handler. rewrite !Hres1. simpl.
      destruct (find (has_email email1) (users w0)) as [v|] eqn:Hv; simpl.
      - exists v. exact Hv.
      - rewrite find_snoc, Hv, has_email_self. eexists. reflexivity. }
    destruct Hsome as [v Hv]. exact (Hfound v Hv).
Qed.

Lemma createAccount_duplicate_witness :
  let second := AuthController.createAccount sample_hash (env_ok "222222")
                  "Ann B" "ANN@X.COM" "other" ann_world in
  failure (fst second) = Some DuplicateEmail /\ snd second = ann_world.
Proof.
  destruct (createAccount_duplicate sample_hash (env_ok "222222") "Ann B" "ANN@X.COM" "other"
              ann_world eq_refl) as [_ Hpair].
  apply (Hpair (env_ok "123456") "Ann" "ann@x.com" "pw123" empty_world
           (all_resolve_env_ok "123456")); [|reflexivity].
  simpl. unfold same_letter. vm_compute. intuition.
Defined.

(** C9. With the lookup resolving and stored emails unique,
    [updateProfile] answers DuplicateEmail exactly when an account other
    than the requesting one holds the target email; an account submitting
    its own current email gets the success message. *)
Theorem updateProfile_duplicate
  (env : Env) (req_user : ObjectId) (name email : string) (w : World) :
  resolves env User_findOne = true ->
  emails_unique (users w) ->
  (failure (fst (AuthController.updateProfile env req_user name email w)) = Some DuplicateEmail
   <-> exists u, In u (users w) /\ user_email u = email_setter email /\ user_id u <> req_user) /\
  (forall u, In u (users w) -> user_id u = req_user -> user_email u = email_setter email ->
   resolves env User_save = true ->
   fst (AuthController.updateProfile env req_user name email w)
   = res_send (Message "Perfil actualizado correctamente")).
Proof.
  intros Hres Huniq.
  assert (Hsame : forall a b, In a (users w) -> In b (users w) ->
                              user_email a = email_setter email ->
                              user_email b = email_setter email -> a = b).
  { intros a b Ha Hb Ea Eb. apply (NoDup_map_inj user_email (users w)); try assumption.
    congruence. }
  unfold AuthController.updateProfile. unfold_handler. rewrite Hres. simpl.
  destruct (find (has_email email) (users w)) as [ue|] eqn:Hue; simpl.
  - apply find_some in Hue. destruct Hue as [Hin He].
    unfold has_email in He. apply String.eqb_eq in He.
    destruct (Nat.eqb_spec (user_id ue) req_user) as [Heq|Hne]; simpl.
    + split.
      * split.
        -- destruct (resolves env User_save); simpl; discriminate.
        -- intros [u [Hu [Eu Hid]]]. exfalso. apply Hid.
           rewrite (Hsame u ue Hu Hin Eu He). exact Heq.
      * intros u _ _ _ Hsave. rewrite Hsave. reflexivity.
    + split.
      * split; [|reflexivity].
        intros _. exists ue. repeat split; assumption.
      * intros u Hu Hid Eu _. exfalso. apply Hne.
        rewrite <- (Hsame u ue Hu Hin Eu He). exact Hid.
  - assert (Hnone : forall u, In u (users w) -> user_email u <> email_setter email).
    { intros u Hu Eu. pose proof (find_none _ _ Hue u Hu) as Hf.
      unfold has_email in Hf. rewrite Eu, String.eqb_refl in Hf. discriminate. }
    split.
    + split.
      * destruct (resolves env User_save); simpl; discriminate.
      * intros [u [Hu [Eu _]]]. exfalso. exact (Hnone u Hu Eu).
    + intros u Hu _ Eu _. exfalso. exact (Hnone u Hu Eu).
Qed.

Lemma ann_bob_emails_unique : emails_unique (users ann_bob_world).
Proof.
  unfold emails_unique. simpl. repeat constructor; simpl; intuition discriminate.
Qed.

Lemma updateProfile_duplicate_witness :
  failure (fst (AuthController.updateProfile (env_ok "") 0 "Ann" "bob@x.com" ann_bob_world))
  = Some DuplicateEmail /\
  fst (AuthController.updateProfile (env_ok "") 0 "Ann B." "Ann@x.com" ann_bob_world)
  = res_send (Message "Perfil actualizado correctamente").
Proof.
  split.
  - apply (updateProfile_duplicate (env_ok "") 0 "Ann" "bob@x.com" ann_bob_world
             eq_refl ann_bob_emails_unique).
    exists (mkUser 2 "Bob" "bob@x.com" "$2b$10$pw456" false).
    split; [right; left; reflexivity|]. split; [reflexivity | discriminate].
  - apply (updateProfile_duplicate (env_ok "") 0 "Ann B." "Ann@x.com" ann_bob_world
             eq_refl ann_bob_emails_unique)
      with (u := mkUser 0 "Ann" "ann@x.com" "$2b$10$pw123" false);
      [left; reflexivity | reflexivity | reflexivity | reflexivity].
Defined.

(** ** The single-token invariant *)

Lemma NoDup_snoc {A : Type} (l : list A) (x : A) :
  NoDup l -> ~ In x l -> NoDup (l ++ [x]).
Proof.
  induction l as [|a l IH]; simpl; intros Hnd Hx.
  - constructor; [tauto | constructor].
  - inversion Hnd as [|? ? Hnotin Hnd']; subst. constructor.
    + rewrite in_app_iff. simpl. intros [H | [H | []]]; [tauto | subst; tauto].
    + apply IH; tauto.
Qed.

Lemma filter_remove_id_length (p : IToken -> bool) (i : ObjectId) (ts : list IToken) :
  length (filter p (Token.remove_id i ts)) <= length (filter p ts).
Proof.
  induction ts as [|a ts IH]; simpl; [lia|].
  destruct (Nat.eqb (token_id a) i); simpl; destruct (p a); simpl; lia.
Qed.

Lemma tokens_of_find_none (uid : ObjectId) (ts : list IToken) :
  find (owned_by uid) ts = None -> tokens_of uid ts = [].
Proof.
  induction ts as [|a ts IH]; simpl; [reflexivity|].
  destruct (owned_by uid a); [discriminate | exact IH].
Qed.

Lemma tokens_of_without (uid : ObjectId) (ts : list IToken) :
  tokens_of uid (without uid ts) = [].
Proof.
  apply tokens_of_find_none. apply find_filter_negb.
Qed.

Lemma tokens_of_unreferenced (uid n : ObjectId) (ts : list IToken) :
  (forall t, In t ts -> token_id t < n /\ token_user t < n) ->
  n <= uid -> tokens_of uid ts = [].
Proof.
  intros Hb Hn. induction ts as [|a ts IH]; simpl; [reflexivity|].
  unfold owned_by at 1. destruct (Nat.eqb_spec (token_user a) uid) as [Heq|Hne].
  - destruct (Hb a (or_introl eq_refl)). lia.
  - apply IH. intros t Ht. apply Hb. right. exact Ht.
Qed.

Section StoreSteps.

Variables (us : list IUser) (ts : list IToken) (ob ob' : list Mail) (n : ObjectId).

Lemma inv_weaken (m : ObjectId) :
  store_inv (mkWorld us ts ob n) -> n <= m -> store_inv (mkWorld us ts ob' m).
Proof.
  intros [[Ht Hu Htb Hub] Hone] Hle. simpl in *. split; [split|]; simpl; try assumption.
  - intros t Hin. destruct (Htb t Hin). lia.
  - intros u Hin. specialize (Hub u Hin). lia.
Qed.

Lemma inv_remove (i : ObjectId) :
  store_inv (mkWorld us ts ob n) -> store_inv (mkWorld us (Token.remove_id i ts) ob' n).
Proof.
  intros [[Ht Hu Htb Hub] Hone]. simpl in *. split; [split|]; simpl; try assumption.
  - apply remove_id_NoDup, Ht.
  - intros t Hin. apply Htb. exact (remove_id_incl _ _ _ Hin).
  - intros uid. specialize (Hone uid). unfold tokens_of in *.
    pose proof (filter_remove_id_length (owned_by uid) i ts). lia.
Qed.

Lemma inv_update (i : ObjectId) (f : IUser -> IUser) :
  (forall v, user_id (f v) = user_id v) ->
  store_inv (mkWorld us ts ob n) -> store_inv (mkWorld (User.update i f us) ts ob' n).
Proof.
  intros Hf [[Ht Hu Htb Hub] Hone]. simpl in *. split; [split|]; simpl; try assumption.
  - rewrite (update_map user_id i f us Hf). exact Hu.
  - intros u Hin. apply (in_map user_id) in Hin.
    rewrite (update_map user_id i f us Hf) in Hin.
    apply in_map_iff in Hin. destruct Hin as [v [<- Hv]]. exact (Hub v Hv).
Qed.

Lemma inv_add_token (code : string) (uid : ObjectId) :
  store_inv (mkWorld us ts ob n) ->
  tokens_of uid ts = [] -> uid <= n ->
  store_inv (mkWorld us (ts ++ [mkToken n code uid]) ob' (S n)).
Proof.
  intros [[Ht Hu Htb Hub] Hone] Hnil Hle. simpl in *. split; [split|]; simpl.
  - rewrite map_app. simpl. apply NoDup_snoc; [exact Ht|].
    intros Hin. apply in_map_iff in Hin. destruct Hin as [t [Hid Hin]].
    destruct (Htb t Hin). lia.
  - exact Hu.
  - intros t Hin. apply in_app_iff in Hin. destruct Hin as [Hin | [<- | []]]; simpl.
    + destruct (Htb t Hin). lia.
    + lia.
  - intros u Hin. specialize (Hub u Hin). lia.
  - intros uid'. unfold one_token_per_account, tokens_of in *.
    rewrite filter_app, length_app.
    change (filter (owned_by uid') [mkToken n code uid])
      with (if Nat.eqb uid uid' then [mkToken n code uid] else []).
    destruct (Nat.eqb_spec uid uid') as [<- | Hne]; simpl.
    + rewrite Hnil. simpl. lia.
    + specialize (Hone uid'). lia.
Qed.

Lemma inv_add_user (name email password : string) (c : bool) :
  store_inv (mkWorld us ts ob n) ->
  store_inv (mkWorld (us ++ [mkUser n name email password c]) ts ob' (S n)).
Proof.
  intros [[Ht Hu Htb Hub] Hone]. simpl in *. split; [split|]; simpl; try assumption.
  - rewrite map_app. simpl. apply NoDup_snoc; [exact Hu|].
    intros Hin. apply in_map_iff in Hin. destruct Hin as [u [Hid Hin]].
    specialize (Hub u Hin). lia.
  - intros t Hin. destruct (Htb t Hin). lia.
  - intros u Hin. apply in_app_iff in Hin. destruct Hin as [Hin | [<- | []]]; simpl.
    + specialize (Hub u Hin). lia.
    + lia.
Qed.

End StoreSteps.

Lemma inv_reissue (us : list IUser) (ts : list IToken) (ob ob' : list Mail) (n : ObjectId)
  (code : string) (u : IUser) (found : option IToken) :
  store_inv (mkWorld us ts ob n) ->
  In u us ->
  find (owned_by (user_id u)) ts = found ->
  store_inv (mkWorld us
               (match found with
                | Some t => Token.remove_id (token_id t) ts
                | None => ts
                end ++ [mkToken n code (user_id u)]) ob' (S n)).
Proof.
  intros Hinv Hin Hfound.
  pose proof Hinv as [[Ht Hu Htb Hub] Hone]. simpl in *.
  pose proof (delete_previous (user_id u) ts Ht Hone) as Hdel. rewrite Hfound in Hdel.
  apply inv_add_token with (ob := ob).
  - destruct found as [t|]; [apply inv_remove with (ob := ob)|]; exact Hinv.
  - rewrite Hdel. apply tokens_of_without.
  - specialize (Hub u Hin). lia.
Qed.

(** Case analysis over what resolves and what the lookups of a handler
    return. *)
Ltac handler_cases :=
  repeat (simpl;
    match goal with
    | |- context [resolves ?e ?c] => destruct (resolves e c)
    | |- context [match find ?p ?l with _ => _ end] =>
        let H := fresh "Hfind" in destruct (find p l) eqn:H
    | |- context [if user_confirmed ?u then _ else _] =>
        let H := fresh "Hconf" in destruct (user_confirmed u) eqn:H
    | |- context [if negb ?b then _ else _] =>
        let H := fresh "Hcond" in destruct b eqn:H
    end);
  unfold with_users, with_tokens, with_outbox; simpl.

Lemma createAccount_inv (hashPassword : string -> string) (env : Env)
  (name email password : string) (w : World) :
  store_inv w ->
  store_inv (snd (AuthController.createAccount hashPassword env name email password w)).
Proof.
  destruct w as [us ts ob n]. intros Hinv.
  assert (Hfresh : tokens_of n ts = []).
  { destruct Hinv as [[_ _ Htb _] _]. simpl in Htb.
    apply (tokens_of_unreferenced n n ts Htb). lia. }
  unfold AuthController.createAccount. unfold_handler. handler_cases; try exact Hinv.
  - apply inv_add_token with (ob := ob); [|exact Hfresh | lia].
    apply inv_add_user with (ob := ob). exact Hinv.
  - apply inv_weaken with (ob := ob) (n := S n); [|lia].
    apply inv_add_user with (ob := ob). exact Hinv.
  - apply inv_add_token with (ob := ob); [|exact Hfresh | lia].
    apply inv_weaken with (ob := ob) (n := n); [exact Hinv | lia].
  - apply inv_weaken with (ob := ob) (n := n); [exact Hinv | lia].
Qed.

(** The two handlers that consume a token settle a user save and a token
    delete independently. *)
Ltac consume_cases ob Hinv :=
  handler_cases;
  try (apply inv_remove with (ob := ob));
  try (apply inv_update with (ob := ob); [reflexivity|]);
  exact Hinv.

Lemma confirmAccount_inv (env : Env) (token : string) (w : World) :
  store_inv w -> store_inv (snd (AuthController.confirmAccount env token w)).
Proof.
  destruct w as [us ts ob n]. intros Hinv.
  unfold AuthController.confirmAccount. unfold_handler. consume_cases ob Hinv.
Qed.

Lemma updatePasswordWithToken_inv (hashPassword : string -> string) (env : Env)
  (token password : string) (w : World) :
  store_inv w ->
  store_inv (snd (AuthController.updatePasswordWithToken hashPassword env token password w)).
Proof.
  destruct w as [us ts ob n]. intros Hinv.
  unfold AuthController.updatePasswordWithToken. unfold_handler. consume_cases ob Hinv.
Qed.

Lemma validateToken_inv (env : Env) (token : string) (w : World) :
  store_inv w -> store_inv (snd (AuthController.validateToken env token w)).
Proof.
  destruct w as [us ts ob n]. intros Hinv.
  unfold AuthController.validateToken. unfold_handler. handler_cases; exact Hinv.
Qed.

Lemma updateProfile_inv (env : Env) (req_user : ObjectId) (name email : string) (w : World) :
  store_inv w -> store_inv (snd (AuthController.updateProfile env req_user name email w)).
Proof.
  destruct w as [us ts ob n]. intros Hinv.
  assert (Hid : forall v, user_id (set_name_email name email v) = user_id v)
    by reflexivity.
  unfold AuthController.updateProfile. unfold_handler. handler_cases; try exact Hinv;
    apply inv_update with (ob := ob); assumption.
Qed.

(** The three handlers that issue a token to an existing account share the
    delete-then-save sequence; [inv_reissue] covers where it completes and
    [inv_remove] where the save rejects after the delete. *)
Ltac issue_cases us ts ob n Hinv :=
  handler_cases; try exact Hinv;
  try (apply inv_weaken with (ob := ob) (n := n); [exact Hinv | lia]);
  try (apply inv_weaken with (ob := ob) (n := n); [|lia];
       apply inv_remove with (ob := ob); exact Hinv);
  try (apply inv_remove with (ob := ob); exact Hinv);
  try (match goal with
       | Hu : find (has_email _) us = Some ?u,
         Ht : find (owned_by (user_id ?u)) ts = ?found |- _ =>
           apply (inv_reissue us ts ob _ n _ u found Hinv
                    (proj1 (find_some _ _ Hu)) Ht)
       end).

Lemma login_inv (checkPassword : string -> string -> bool) (generateJWT : ObjectId -> string)
  (env : Env) (email password : string) (w : World) :
  store_inv w ->
  store_inv (snd (AuthController.login checkPassword generateJWT env email password w)).
Proof.
  destruct w as [us ts ob n]. intros Hinv.
  unfold AuthController.login. unfold_handler. issue_cases us ts ob n Hinv.
Qed.

Lemma requestConfirmationCode_inv (env : Env) (email : string) (w : World) :
  store_inv w -> store_inv (snd (AuthController.requestConfirmationCode env email w)).
Proof.
  destruct w as [us ts ob n]. intros Hinv.
  unfold AuthController.requestConfirmationCode. unfold_handler.
  issue_cases us ts ob n Hinv.
Qed.

Lemma forgotPassword_inv (env : Env) (email : string) (w : World) :
  store_inv w -> store_inv (snd (AuthController.forgotPassword env email w)).
Proof.
  destruct w as [us ts ob n]. intros Hinv.
  unfold AuthController.forgotPassword. unfold_handler. issue_cases us ts ob n Hinv.
Qed.

Lemma lifecycle_step_inv (w w' : World) :
  lifecycle_step w w' -> store_inv w -> store_inv w'.
Proof.
  intros Hstep. destruct Hstep.
  - apply createAccount_inv.
  - apply confirmAccount_inv.
  - apply login_inv.
  - apply requestConfirmationCode_inv.
  - apply forgotPassword_inv.
  - apply validateToken_inv.
  - apply updatePasswordWithToken_inv.
  - apply updateProfile_inv.
Qed.

Lemma reachable_inv (w w' : World) :
  reachable w w' -> store_inv w -> store_inv w'.
Proof.
  intros Hreach Hinv. induction Hreach as [|w1 w2 _ IH Hstep]; [exact Hinv|].
  exact (lifecycle_step_inv w1 w2 Hstep IH).
Qed.

Lemma two_matches_length {A : Type} (p : A -> bool) (l : list A) (a b : A) :
  In a l -> In b l -> a <> b -> p a = true -> p b = true -> 2 <= length (filter p l).
Proof.
  intros Ha Hb Hne Hpa Hpb.
  assert (Ha' : In a (filter p l)) by (apply filter_In; tauto).
  assert (Hb' : In b (filter p l)) by (apply filter_In; tauto).
  destruct (filter p l) as [|x [|y rest]]; simpl in *; [tauto | | lia].
  destruct Ha' as [<- | []], Hb' as [<- | []]. congruence.
Qed.

Lemma one_token_deletes_before_issuing (w w' : World) :
  one_token_per_account (tokens w') -> deletes_before_issuing w w'.
Proof.
  intros Hone new Hnew Hfresh old Hold Huser Hstill.
  specialize (Hone (token_user new)). unfold tokens_of in Hone.
  assert (Hne : old <> new) by (intros ->; exact (Hfresh Hold)).
  assert (Hold_owned : owned_by (token_user new) old = true)
    by (unfold owned_by; rewrite Huser; apply Nat.eqb_refl).
  assert (Hnew_owned : owned_by (token_user new) new = true)
    by (unfold owned_by; apply Nat.eqb_refl).
  pose proof (two_matches_length (owned_by (token_user new)) (tokens w') old new
                Hstill Hnew Hne Hold_owned Hnew_owned) as H2.
  lia.
Qed.

(** Served alone, the await-by-await handler is the handler. *)
Lemma requestConfirmationCode_async_alone (env : Env) (email : string) (w : World) :
  run_alone 4 (requestConfirmationCode_async env email) w
  = Some (AuthController.requestConfirmationCode env email w).
Proof.
  unfold AuthController.requestConfirmationCode, requestConfirmationCode_async.
  unfold_handler. simpl.
  destruct (resolves env User_findOne); simpl; [|reflexivity].
  destruct (find (has_email email) (users w)) as [u|]; simpl; [|reflexivity].
  destruct (user_confirmed u); simpl; [reflexivity|].
  destruct (resolves env Token_findOne); simpl; [|reflexivity].
  destruct (find (owned_by (user_id u)) (tokens w)) as [t|]; simpl.
  - destruct (resolves env Token_deleteOne); simpl; [|reflexivity].
    destruct (resolves env Token_save); reflexivity.
  - destruct (resolves env Token_save); reflexivity.
Qed.

(** C5, as stated, fails when requests overlap: nothing serializes the
    lookup, delete and save of a handler. Two requests for a new code for
    the same account, resumed in turn, both find the old token before
    either deletes it, both answer success, and both their tokens are
    stored: from a store with one token per account, the account ends with
    two live tokens. *)
Lemma overlapping_requests_two_tokens :
  wf ann_world /\
  one_token_per_account (tokens ann_world) /\
  fst (fst ann_asks_twice)
  = Responded (res_send (Message "Se envió un nuevo token a tu e-mail")) /\
  snd (fst ann_asks_twice)
  = Responded (res_send (Message "Se envió un nuevo token a tu e-mail")) /\
  tokens (snd ann_asks_twice) = [mkToken 2 "111111" 0; mkToken 3 "222222" 0] /\
  ~ one_token_per_account (tokens (snd ann_asks_twice)).
Proof.
  split; [exact ann_world_wf|]. split; [exact ann_world_one_token|].
  split; [reflexivity|]. split; [reflexivity|]. split; [reflexivity|].
  intros Hone. specialize (Hone 0). vm_compute in Hone. lia.
Qed.

(** The same two requests served one after the other leave one token. *)
Example served_in_turn_one_token :
  tokens (snd (interleave [true; true; true; true; false; false; false; false]
                 (requestConfirmationCode_async (env_ok "111111") "ann@x.com")
                 (requestConfirmationCode_async (env_ok "222222") "ann@x.com")
                 ann_world))
  = [mkToken 3 "222222" 0].
Proof. reflexivity. Qed.

(** C5, amended. With requests served one at a time, from a store where
    every account has at most one live token, every store reached by the
    lifecycle operations has at most one live token per account, and any
    further operation that stores a new token leaves none of the tokens the
    account had before. *)
Theorem one_live_token_invariant (w w' : World) :
  wf w ->
  one_token_per_account (tokens w) ->
  reachable w w' ->
  one_token_per_account (tokens w') /\
  wf w' /\
  (forall w'', lifecycle_step w' w'' -> deletes_before_issuing w' w'').
Proof.
  intros Hwf Hone Hreach.
  destruct (reachable_inv w w' Hreach (conj Hwf Hone)) as [Hwf' Hone'].
  split; [exact Hone'|]. split; [exact Hwf'|].
  intros w'' Hstep. apply one_token_deletes_before_issuing.
  exact (proj2 (lifecycle_step_inv w' w'' Hstep (conj Hwf' Hone'))).
Qed.

Lemma empty_world_wf : wf empty_world.
Proof.
  split; simpl; [constructor | constructor | intros ? [] | intros ? []].
Qed.

Lemma ann_bob_reachable : reachable empty_world ann_bob_world.
Proof.
  apply reach_step with (w1 := ann_world).
  - apply reach_step with (w1 := empty_world); [apply reach_here|].
    apply (step_register sample_hash (env_ok "123456") "Ann" "ann@x.com" "pw123" empty_world).
  - apply (step_register sample_hash (env_ok "123456") "Bob" "bob@x.com" "pw456" ann_world).
Qed.

Lemma one_live_token_invariant_witness :
  one_token_per_account (tokens ann_bob_world) /\ wf ann_bob_world.
Proof.
  assert (Hone : one_token_per_account (tokens empty_world)) by (intros uid; simpl; lia).
  destruct (one_live_token_invariant empty_world ann_bob_world
              empty_world_wf Hone ann_bob_reachable) as [H1 [H2 _]].
  split; [exact H1 | exact H2].
Defined.

(** ** Stored emails stay normalized and unique *)

Lemma email_setter_idem (e : string) : email_setter (email_setter e) = email_setter e.
Proof. apply toLowerCase_idem. Qed.

Lemma update_in (i : ObjectId) (f : IUser -> IUser) (us : list IUser) (u : IUser) :
  In u (User.update i f us) -> In u us \/ exists v, In v us /\ u = f v.
Proof.
  induction us as [|a us IH]; simpl; [tauto|].
  destruct (Nat.eqb (user_id a) i); simpl.
  - intros [<- | Hin]; [right; exists a; tauto | tauto].
  - intros [<- | Hin]; [tauto|].
    destruct (IH Hin) as [H | [v [Hv ->]]]; [tauto | right; exists v; tauto].
Qed.

Lemma update_emails_fresh (i : ObjectId) (f : IUser -> IUser) (e : string)
  (us : list IUser) :
  (forall v, user_email (f v) = e) ->
  (forall x, In x us -> user_email x <> e) ->
  NoDup (map user_email us) -> NoDup (map user_email (User.update i f us)).
Proof.
  intros Hf. induction us as [|a us IH]; simpl; intros Hfresh Hnd; [constructor|].
  inversion Hnd as [|? ? Hnotin Hnd']; subst.
  destruct (Nat.eqb (user_id a) i); simpl; constructor.
  - rewrite Hf. intros Hin. apply in_map_iff in Hin. destruct Hin as [x [Hx Hin]].
    exact (Hfresh x (or_intror Hin) Hx).
  - exact Hnd'.
  - intros Hin. apply in_map_iff in Hin. destruct Hin as [x [Hx Hin]].
    destruct (update_in _ _ _ _ Hin) as [H | [v [Hv ->]]].
    + apply Hnotin. rewrite <- Hx. apply in_map. exact H.
    + rewrite Hf in Hx. exact (Hfresh a (or_introl eq_refl) (eq_sym Hx)).
  - apply IH; [|exact Hnd']. intros x Hx. apply Hfresh. right. exact Hx.
Qed.

Lemma update_emails_same (f : IUser -> IUser) (us : list IUser) (u : IUser) :
  NoDup (map user_id us) -> In u us -> user_email (f u) = user_email u ->
  map user_email (User.update (user_id u) f us) = map user_email us.
Proof.
  intros Hnd Hin Hf. induction us as [|a us IH]; simpl in *; [reflexivity|].
  inversion Hnd as [|? ? Hnotin Hnd']; subst.
  destruct (Nat.eqb_spec (user_id a) (user_id u)) as [Heq|Hne]; simpl.
  - assert (a = u) as ->.
    { destruct Hin as [-> | Hin]; [reflexivity|].
      exfalso. apply Hnotin. rewrite Heq. apply in_map. exact Hin. }
    rewrite Hf. reflexivity.
  - f_equal. apply IH; [exact Hnd'|]. destruct Hin as [-> | Hin]; [congruence | exact Hin].
Qed.

Lemma emails_inv_update (i : ObjectId) (f : IUser -> IUser) (us : list IUser) :
  (forall v, user_email (f v) = user_email v) ->
  emails_normalized us /\ emails_unique us ->
  emails_normalized (User.update i f us) /\ emails_unique (User.update i f us).
Proof.
  intros Hf [Hnorm Huniq]. split.
  - intros u Hin. destruct (update_in _ _ _ _ Hin) as [H | [v [Hv ->]]].
    + exact (Hnorm u H).
    + rewrite Hf. exact (Hnorm v Hv).
  - unfold emails_unique. rewrite (update_map user_email i f us Hf). exact Huniq.
Qed.

Lemma emails_inv_add (us : list IUser) (i : ObjectId) (n e p : string) (c : bool) :
  find (has_email e) us = None ->
  emails_normalized us /\ emails_unique us ->
  emails_normalized (us ++ [mkUser i n (email_setter e) p c]) /\
  emails_unique (us ++ [mkUser i n (email_setter e) p c]).
Proof.
  intros Hnone [Hnorm Huniq]. split.
  - intros u Hin. apply in_app_iff in Hin. destruct Hin as [Hin | [<- | []]].
    + exact (Hnorm u Hin).
    + simpl. symmetry. apply email_setter_idem.
  - unfold emails_unique. rewrite map_app. simpl. apply NoDup_snoc; [exact Huniq|].
    intros Hin. apply in_map_iff in Hin. destruct Hin as [x [Hx Hin]].
    pose proof (find_none _ _ Hnone x Hin) as Hf. unfold has_email in Hf.
    rewrite Hx, String.eqb_refl in Hf. discriminate.
Qed.

Lemma emails_inv_profile (req_user : ObjectId) (name email : string) (us : list IUser) :
  NoDup (map user_id us) ->
  match find (has_email email) us with
  | Some ue => user_id ue = req_user
  | None => True
  end ->
  emails_normalized us /\ emails_unique us ->
  emails_normalized (User.update req_user (set_name_email name email) us) /\
  emails_unique (User.update req_user (set_name_email name email) us).
Proof.
  intros Hids Hfound [Hnorm Huniq]. split.
  - intros u Hin. destruct (update_in _ _ _ _ Hin) as [H | [v [Hv ->]]].
    + exact (Hnorm u H).
    + simpl. symmetry. apply email_setter_idem.
  - destruct (find (has_email email) us) as [ue|] eqn:Hue.
    + apply find_some in Hue. destruct Hue as [Hin He].
      unfold has_email in He. apply String.eqb_eq in He.
      unfold emails_unique. subst req_user.
      rewrite (update_emails_same _ us ue Hids Hin); [exact Huniq|].
      simpl. symmetry. exact He.
    + apply (update_emails_fresh req_user (set_name_email name email)
               (email_setter email) us (fun v => eq_refl)); [|exact Huniq].
      intros x Hx Hex. pose proof (find_none _ _ Hue x Hx) as Hf.
      unfold has_email in Hf. rewrite Hex, String.eqb_refl in Hf. discriminate.
Qed.

(** Every lifecycle step keeps the stored emails normalized and unique. *)
Lemma lifecycle_step_emails (w w' : World) :
  lifecycle_step w w' -> wf w -> emails_inv w -> emails_inv w'.
Proof.
  intros Hstep Hwf. unfold emails_inv.
  destruct Hstep; destruct w as [us ts ob n]; simpl; intros Hinv.
  - unfold AuthController.createAccount. unfold_handler. handler_cases; try exact Hinv;
      apply emails_inv_add; assumption.
  - unfold AuthController.confirmAccount. unfold_handler. handler_cases; try exact Hinv;
      (apply emails_inv_update; [reflexivity | exact Hinv]).
  - unfold AuthController.login. unfold_handler. handler_cases; exact Hinv.
  - unfold AuthController.requestConfirmationCode. unfold_handler.
    handler_cases; exact Hinv.
  - unfold AuthController.forgotPassword. unfold_handler. handler_cases; exact Hinv.
  - unfold AuthController.validateToken. unfold_handler. handler_cases; exact Hinv.
  - unfold AuthController.updatePasswordWithToken. unfold_handler.
    handler_cases; try exact Hinv; (apply emails_inv_update; [reflexivity | exact Hinv]).
  - pose proof (wf_user_ids _ Hwf) as Hids. simpl in Hids.
    pose proof (emails_inv_profile req_user name email us Hids) as Hprofile.
    unfold AuthController.updateProfile. unfold_handler.
    destruct (resolves env User_findOne); simpl; [|exact Hinv].
    destruct (find (has_email email) us) as [ue|] eqn:Hue; simpl.
    + destruct (Nat.eqb_spec (user_id ue) req_user) as [Heq|Hne]; simpl; [|exact Hinv].
      destruct (resolves env User_save); simpl; [|exact Hinv].
      exact (Hprofile Heq Hinv).
    + destruct (resolves env User_save); simpl; [|exact Hinv].
      exact (Hprofile I Hinv).
Qed.

Lemma reachable_emails (w w' : World) :
  reachable w w' -> store_inv w -> emails_inv w -> emails_inv w'.
Proof.
  intros Hreach Hinv He. induction Hreach as [|w1 w2 Hreach IH Hstep]; [exact He|].
  apply (lifecycle_step_emails w1 w2 Hstep); [|exact IH].
  exact (proj1 (reachable_inv w w1 Hreach Hinv)).
Qed.

(** ** Project routes *)

Module RouteProperties.
Import ProjectRoutes.


Lemma owner_role (u : ObjectId) (p : Project) :
  is_owner u p -> resolve u p = Owner.
Proof.
  unfold is_owner, resolve. intros ->. rewrite Nat.eqb_refl. reflexivity.
Qed.

(** The owner passes every chain. *)
Lemma owner_reaches_every_action (u : ObjectId) (p : Project) (a : Action) :
  is_owner u p -> route a (request_of u p) = Reaches a.
Proof.
  intros Howner. unfold route, dispatch, hasAuthorization_at.
  destruct a; simpl; rewrite ?(owner_role u p Howner); reflexivity.
Qed.

(** The handler lists of task creation and of the team changes carry no
    [hasAuthorization]: whatever it would decide, the chain hands the
    request on to the controller action, whose body (and any check in it)
    is not among the sources. *)
Lemma ungated_mutations (gate : ObjectId -> Project -> bool) (u : ObjectId) (p : Project) :
  dispatch gate createTask (request_of u p) = Reaches createTask /\
  dispatch gate addMemberById (request_of u p) = Reaches addMemberById /\
  dispatch gate removeMemberById (request_of u p) = Reaches removeMemberById.
Proof. repeat split. Qed.



End RouteProperties.

(** * Further properties of the controller *)

(** ** Registration *)

Lemma find_fresh_id (n : ObjectId) (us : list IUser) :
  (forall u, In u us -> user_id u < n) -> find (has_id n) us = None.
Proof.
  intros Hb. induction us as [|a us IH]; simpl; [reflexivity|].
  unfold has_id at 1. destruct (Nat.eqb_spec (user_id a) n) as [Heq|Hne].
  - specialize (Hb a (or_introl eq_refl)). lia.
  - apply IH. intros u Hu. apply Hb. right. exact Hu.
Qed.

Lemma update_snoc_fresh (i : ObjectId) (f : IUser -> IUser) (us : list IUser) (u : IUser) :
  find (has_id i) us = None -> user_id u = i ->
  User.update i f (us ++ [u]) = (us ++ [f u])%list.
Proof.
  intros Hnone Hid. induction us as [|a us IH]; simpl in *.
  - rewrite Hid, Nat.eqb_refl. reflexivity.
  - unfold has_id in Hnone at 1. destruct (Nat.eqb (user_id a) i); [discriminate|].
    rewrite (IH Hnone). reflexivity.
Qed.

Lemma remove_id_snoc_fresh (ts : list IToken) (t : IToken) :
  (forall x, In x ts -> token_id x <> token_id t) ->
  Token.remove_id (token_id t) (ts ++ [t]) = ts.
Proof.
  intros Hfresh. induction ts as [|a ts IH]; simpl.
  - rewrite Nat.eqb_refl. reflexivity.
  - destruct (Nat.eqb_spec (token_id a) (token_id t)) as [Heq|Hne].
    + exfalso. exact (Hfresh a (or_introl eq_refl) Heq).
    + f_equal. apply IH. intros x Hx. apply Hfresh. right. exact Hx.
Qed.

Lemma has_code_self (i uid : ObjectId) (code : string) :
  has_code code (mkToken i code uid) = true.
Proof. unfold has_code. simpl. apply String.eqb_refl. Qed.

Lemma has_id_self (i : ObjectId) (n e p : string) (c : bool) :
  has_id i (mkUser i n e p c) = true.
Proof. unfold has_id. simpl. apply Nat.eqb_refl. Qed.

(** X1. Registering an email no account has, with the persistence calls
    resolving, answers the success message, stores one account under a
    fresh [_id] with the submitted name, the normalized email and the
    hashed (never the plain) password, stores one token for it, and sends
    one confirmation email with that token's code to that address. *)
Theorem createAccount_fresh
  (hashPassword : string -> string) (env : Env) (name email password : string) (w : World) :
  all_resolve env ->
  find (has_email email) (users w) = None ->
  let r := fst (AuthController.createAccount hashPassword env name email password w) in
  let w' := snd (AuthController.createAccount hashPassword env name email password w) in
  r = res_send (Message "Cuenta creada, revisa tu email para confirmarla") /\
  (exists u, users w' = (users w ++ [u])%list /\
             user_id u = next_id w /\ user_name u = name /\
             user_email u = email_setter email /\
             user_password u = hashPassword password) /\
  tokens w' = (tokens w ++ [mkToken (S (next_id w)) (generateToken env) (next_id w)])%list /\
  outbox w' =
    (outbox w ++ [ConfirmationEmail (mkEmail (email_setter email) name (generateToken env))])%list.
Proof.
  intros Hres Hnone. unfold AuthController.createAccount. unfold_handler.
  rewrite !Hres. simpl. rewrite Hnone. simpl.
  split; [reflexivity|]. split; [|split; reflexivity].
  eexists. split; [reflexivity|]. repeat split.
Qed.

Lemma createAccount_fresh_witness :
  tokens ann_world = [mkToken 1 "123456" 0] /\
  outbox ann_world = [ConfirmationEmail (mkEmail "ann@x.com" "Ann" "123456")].
Proof.
  pose proof (createAccount_fresh sample_hash (env_ok "123456") "Ann" "ann@x.com" "pw123"
                empty_world (all_resolve_env_ok "123456") eq_refl) as H.
  destruct H as [_ [_ [Ht Ho]]]. split; [exact Ht | exact Ho].
Defined.

(** X2. Once the duplicate check has passed, [createAccount] answers the
    success message and has sent the confirmation email whatever becomes of
    the two saves; a save that rejects leaves its collection as it was, so
    with both rejecting nothing is stored. *)
Theorem createAccount_reports_success
  (hashPassword : string -> string) (env : Env) (name email password : string) (w : World) :
  resolves env User_findOne = true ->
  find (has_email email) (users w) = None ->
  let r := fst (AuthController.createAccount hashPassword env name email password w) in
  let w' := snd (AuthController.createAccount hashPassword env name email password w) in
  r = res_send (Message "Cuenta creada, revisa tu email para confirmarla") /\
  outbox w' =
    (outbox w ++ [ConfirmationEmail (mkEmail (email_setter email) name (generateToken env))])%list /\
  (resolves env User_save = false -> users w' = users w) /\
  (resolves env Token_save = false -> tokens w' = tokens w).
Proof.
  intros Hres Hnone. unfold AuthController.createAccount. unfold_handler.
  rewrite Hres. simpl. rewrite Hnone. simpl.
  destruct (resolves env User_save), (resolves env Token_save); simpl;
    repeat split; intros; try reflexivity; discriminate.
Qed.

Lemma createAccount_reports_success_witness :
  let run := AuthController.createAccount sample_hash (env_user_save_rejects "123456")
               "Ann" "ann@x.com" "pw123" empty_world in
  fst run = res_send (Message "Cuenta creada, revisa tu email para confirmarla") /\
  users (snd run) = [].
Proof.
  pose proof (createAccount_reports_success sample_hash (env_user_save_rejects "123456")
                "Ann" "ann@x.com" "pw123" empty_world eq_refl eq_refl) as H.
  destruct H as [Hr [_ [Hu _]]]. split; [exact Hr | exact (Hu eq_refl)].
Defined.

(** X3. A registration whose account save rejects while its token save
    resolves leaves a token that belongs to no account: confirming with its
    code then answers the 500 error, not the invalid-token one, and the
    token stays stored. *)
Theorem orphan_token_confirm
  (hashPassword : string -> string) (env env' : Env) (name email password : string)
  (w : World) :
  wf w ->
  resolves env User_findOne = true ->
  resolves env User_save = false ->
  resolves env Token_save = true ->
  find (has_email email) (users w) = None ->
  find (has_code (generateToken env)) (tokens w) = None ->
  resolves env' Token_findOne = true ->
  resolves env' User_findById = true ->
  let w1 := snd (AuthController.createAccount hashPassword env name email password w) in
  AuthController.confirmAccount env' (generateToken env) w1
  = (res_status_json_error 500 "Hubo un error", w1) /\
  In (mkToken (S (next_id w)) (generateToken env) (next_id w)) (tokens w1).
Proof.
  intros Hwf Hfind Husave Htsave Hnone Hcode Hfind' Hbyid.
  pose proof (find_fresh_id (next_id w) (users w) (wf_user_bound w Hwf)) as Hfresh.
  unfold AuthController.createAccount, AuthController.confirmAccount. unfold_handler.
  rewrite Hfind, Husave, Htsave. simpl. rewrite Hnone. simpl.
  rewrite Hfind', Hbyid. simpl.
  rewrite find_snoc, Hcode, has_code_self. simpl. rewrite Hfresh. simpl.
  split; [reflexivity|]. apply in_or_app. right. left. reflexivity.
Qed.

Lemma orphan_token_confirm_witness :
  let w1 := snd (AuthController.createAccount sample_hash (env_user_save_rejects "123456")
                   "Ann" "ann@x.com" "pw123" empty_world) in
  AuthController.confirmAccount (env_ok "") "123456" w1
  = (res_status_json_error 500 "Hubo un error", w1).
Proof.
  exact (proj1 (orphan_token_confirm sample_hash (env_user_save_rejects "123456") (env_ok "")
                  "Ann" "ann@x.com" "pw123" empty_world empty_world_wf
                  eq_refl eq_refl eq_refl eq_refl eq_refl eq_refl eq_refl)).
Defined.

(** X4. Register, confirm, log in. From a well-formed store, registering an
    unused email (with a code no stored token carries), confirming with the
    code that was generated and logging in with the same email and password
    yields the credential of the new account, provided the password utility
    accepts a password against its own hash; the confirmation consumed the
    token. *)
Theorem register_confirm_login
  (hashPassword : string -> string) (checkPassword : string -> string -> bool)
  (generateJWT : ObjectId -> string) (env1 env2 env3 : Env)
  (name email password : string) (w : World) :
  wf w ->
  all_resolve env1 ->
  all_resolve env2 ->
  resolves env3 User_findOne = true ->
  find (has_email email) (users w) = None ->
  find (has_code (generateToken env1)) (tokens w) = None ->
  checkPassword password (hashPassword password) = true ->
  let w1 := snd (AuthController.createAccount hashPassword env1 name email password w) in
  let w2 := snd (AuthController.confirmAccount env2 (generateToken env1) w1) in
  fst (AuthController.confirmAccount env2 (generateToken env1) w1)
  = res_send (Message "Cuenta confirmada correctamente") /\
  tokens w2 = tokens w /\
  AuthController.login checkPassword generateJWT env3 email password w2
  = (res_send (Jwt (generateJWT (next_id w))), w2).
Proof.
  intros Hwf H1 H2 H3 Hnone Hcode Hcheck.
  pose proof (find_fresh_id (next_id w) (users w) (wf_user_bound w Hwf)) as Hfresh.
  assert (Htid : forall x, In x (tokens w) ->
            token_id x <> token_id (mkToken (S (next_id w)) (generateToken env1) (next_id w))).
  { intros x Hx. destruct (wf_token_bound w Hwf x Hx). simpl. lia. }
  destruct w as [us ts ob n]. simpl in *.
  unfold AuthController.createAccount, AuthController.confirmAccount, AuthController.login.
  unfold_handler. rewrite !H1, !H2, H3. simpl. rewrite Hnone. simpl.
  rewrite find_snoc, Hcode, has_code_self. simpl.
  rewrite find_snoc, Hfresh, has_id_self. simpl.
  rewrite (update_snoc_fresh n (set_confirmed true) us
             (mkUser n name (email_setter email) (hashPassword password) false)
             Hfresh eq_refl).
  pose proof (remove_id_snoc_fresh ts (mkToken (S n) (generateToken env1) n) Htid) as Hrm.
  simpl in Hrm. rewrite Hrm.
  split; [reflexivity|]. split; [reflexivity|].
  rewrite find_snoc, Hnone.
  unfold set_confirmed at 1. simpl. rewrite has_email_self. simpl.
  rewrite Hcheck. reflexivity.
Qed.

Lemma sample_check_hash (p : string) : sample_check p (sample_hash p) = true.
Proof. unfold sample_check. apply String.eqb_refl. Qed.

Lemma register_confirm_login_witness :
  fst (AuthController.login sample_check sample_jwt (env_ok "") "ann@x.com" "pw123"
         ann_confirmed_world)
  = res_send (Jwt (sample_jwt 0)).
Proof.
  pose proof (register_confirm_login sample_hash sample_check sample_jwt
                (env_ok "123456") (env_ok "") (env_ok "") "Ann" "ann@x.com" "pw123"
                empty_world empty_world_wf (all_resolve_env_ok "123456")
                (all_resolve_env_ok "") eq_refl eq_refl eq_refl
                (sample_check_hash "pw123")) as H.
  destruct H as [_ [_ Hlogin]].
  exact (f_equal fst Hlogin).
Defined.

(** ** Login *)

(** X5. [login] never modifies an account. When the email is unknown or
    the account is confirmed it writes nothing at all, whatever resolves;
    with the lookup resolving, an unknown email gets the 404 user-not-found
    answer and a confirmed account gets its credential when the password
    utility accepts the password and the 404 wrong-password answer
    otherwise. *)
Theorem login_confirmed_or_unknown
  (checkPassword : string -> string -> bool) (generateJWT : ObjectId -> string)
  (env : Env) (email password : string) (w : World) :
  let r := fst (AuthController.login checkPassword generateJWT env email password w) in
  let w' := snd (AuthController.login checkPassword generateJWT env email password w) in
  users w' = users w /\
  match find (has_email email) (users w) with
  | None =>
      w' = w /\
      (resolves env User_findOne = true ->
       r = res_status_json_error 404 "Usuario no encontrado")
  | Some u =>
      user_confirmed u = true ->
      w' = w /\
      (resolves env User_findOne = true ->
       r = if checkPassword password (user_password u)
           then res_send (Jwt (generateJWT (user_id u)))
           else res_status_json_error 404 "Password incorrecto")
  end.
Proof.
  unfold AuthController.login. unfold_handler. split.
  - handler_cases; reflexivity.
  - destruct (find (has_email email) (users w)) as [u|] eqn:Hu.
    + intros Hc. destruct (resolves env User_findOne); simpl.
      * rewrite Hc. simpl.
        destruct (checkPassword password (user_password u)); simpl;
          split; try reflexivity; intros _; reflexivity.
      * split; [reflexivity | discriminate].
    + destruct (resolves env User_findOne); simpl;
        split; try reflexivity; try discriminate; intros _; reflexivity.
Qed.

(** X6. A credential is only ever answered to a request whose email names
    a confirmed account and whose password the utility accepts against that
    account's stored hash, and it is the credential of that account. *)
Theorem login_credential_sound
  (checkPassword : string -> string -> bool) (generateJWT : ObjectId -> string)
  (env : Env) (email password : string) (w : World) (j : string) :
  fst (AuthController.login checkPassword generateJWT env email password w)
  = res_send (Jwt j) ->
  exists u,
    find (has_email email) (users w) = Some u /\
    user_confirmed u = true /\
    checkPassword password (user_password u) = true /\
    j = generateJWT (user_id u).
Proof.
  unfold AuthController.login. unfold_handler.
  destruct (resolves env User_findOne); simpl; [|discriminate].
  destruct (find (has_email email) (users w)) as [u|]; simpl; [|discriminate].
  destruct (user_confirmed u) eqn:Hc; simpl.
  - destruct (checkPassword password (user_password u)) eqn:Hp; simpl; [|discriminate].
    intros H. injection H as <-. exists u. repeat split; assumption.
  - destruct (resolves env Token_findOne); simpl; [|discriminate].
    destruct (find (owned_by (user_id u)) (tokens w)); simpl;
      destruct (resolves env Token_deleteOne); simpl; try discriminate;
      destruct (resolves env Token_save); simpl; discriminate.
Qed.

Lemma login_credential_sound_witness :
  exists u,
    find (has_email "Ann@x.com") (users ann_confirmed_world) = Some u /\
    user_confirmed u = true /\
    sample_check "pw123" (user_password u) = true /\
    "jwt.0" = sample_jwt (user_id u).
Proof.
  exact (login_credential_sound sample_check sample_jwt (env_ok "") "Ann@x.com" "pw123"
           ann_confirmed_world "jwt.0" eq_refl).
Defined.

(** ** Sending and storing *)

(** X7. [requestConfirmationCode] sends the email before it saves the
    token: when that save rejects, the answer is the 500 error, the email
    with the new code has gone out, the account's prior token has been
    deleted, and the account is left with no token at all. *)
Theorem requestConfirmationCode_save_rejects
  (env : Env) (email : string) (w : World) (u : IUser) :
  wf w ->
  one_token_per_account (tokens w) ->
  resolves env User_findOne = true ->
  resolves env Token_findOne = true ->
  resolves env Token_deleteOne = true ->
  resolves env Token_save = false ->
  find (has_email email) (users w) = Some u ->
  user_confirmed u = false ->
  let r := fst (AuthController.requestConfirmationCode env email w) in
  let w' := snd (AuthController.requestConfirmationCode env email w) in
  r = res_status_json_error 500 "Hubo un error" /\
  tokens w' = without (user_id u) (tokens w) /\
  tokens_of (user_id u) (tokens w') = [] /\
  outbox w' =
    (outbox w
     ++ [ConfirmationEmail (mkEmail (user_email u) (user_name u) (generateToken env))])%list.
Proof.
  intros Hwf Hone Hf Htf Hd Hs Hu Hc.
  pose proof (delete_previous (user_id u) (tokens w) (wf_token_ids w Hwf) Hone) as Hdel.
  unfold AuthController.requestConfirmationCode. unfold_handler.
  rewrite Hf, Htf, Hs. simpl. rewrite Hu. simpl. rewrite Hc. simpl.
  destruct (find (owned_by (user_id u)) (tokens w)) as [t|]; simpl;
    try rewrite Hd; simpl; rewrite <- Hdel;
    (split; [reflexivity|]); (split; [reflexivity|]); (split; [|reflexivity]);
    rewrite Hdel; apply tokens_of_without.
Qed.

Lemma requestConfirmationCode_save_rejects_witness :
  let w' := snd (AuthController.requestConfirmationCode (env_save_rejects "654321")
                   "ann@x.com" ann_world) in
  tokens w' = [] /\
  outbox w' = [ConfirmationEmail (mkEmail "ann@x.com" "Ann" "123456");
               ConfirmationEmail (mkEmail "ann@x.com" "Ann" "654321")].
Proof.
  pose proof (requestConfirmationCode_save_rejects (env_save_rejects "654321") "ann@x.com"
                ann_world (mkUser 0 "Ann" "ann@x.com" "$2b$10$pw123" false)
                ann_world_wf ann_world_one_token
                eq_refl eq_refl eq_refl eq_refl eq_refl eq_refl) as H.
  destruct H as [_ [Ht [_ Ho]]]. split; [exact Ht | exact Ho].
Defined.

(** X8. [forgotPassword] and [login] send their email only after the new
    token is stored: whatever resolves or rejects, either no email went out
    or exactly one did, addressed to a stored account, and the token with
    the mailed code is in the token store. *)
Theorem mail_only_after_token_stored
  (checkPassword : string -> string -> bool) (generateJWT : ObjectId -> string)
  (env : Env) (email password : string) (w : World) :
  (let w' := snd (AuthController.forgotPassword env email w) in
   outbox w' = outbox w \/
   exists u, In u (users w) /\
     outbox w' =
       (outbox w
        ++ [PasswordResetToken (mkEmail (user_email u) (user_name u) (generateToken env))])%list /\
     In (mkToken (next_id w) (generateToken env) (user_id u)) (tokens w')) /\
  (let w' := snd (AuthController.login checkPassword generateJWT env email password w) in
   outbox w' = outbox w \/
   exists u, In u (users w) /\
     outbox w' =
       (outbox w
        ++ [ConfirmationEmail (mkEmail (user_email u) (user_name u) (generateToken env))])%list /\
     In (mkToken (next_id w) (generateToken env) (user_id u)) (tokens w')).
Proof.
  split.
  - unfold AuthController.forgotPassword. unfold_handler. handler_cases;
      try (left; reflexivity);
      match goal with
      | H : find (has_email _) _ = Some ?u |- _ =>
          right; exists u; split; [exact (proj1 (find_some _ _ H))|];
          split; [reflexivity | apply in_or_app; right; left; reflexivity]
      end.
  - unfold AuthController.login. unfold_handler. handler_cases;
      try (left; reflexivity);
      match goal with
      | H : find (has_email _) _ = Some ?u |- _ =>
          right; exists u; split; [exact (proj1 (find_some _ _ H))|];
          split; [reflexivity | apply in_or_app; right; left; reflexivity]
      end.
Qed.

Lemma login_confirmed_or_unknown_witness :
  AuthController.login sample_check sample_jwt (env_ok "") "ann@x.com" "wrong"
    ann_confirmed_world
  = (res_status_json_error 404 "Password incorrecto", ann_confirmed_world).
Proof.
  pose proof (login_confirmed_or_unknown sample_check sample_jwt (env_ok "")
                "ann@x.com" "wrong" ann_confirmed_world) as H.
  simpl in H. destruct H as [_ H]. destruct (H eq_refl) as [Hw Hr].
  apply injective_projections; simpl; [exact (Hr eq_refl) | exact Hw].
Defined.

(** ** Passwords of a signed-in account *)

Lemma find_has_id (i : ObjectId) (us : list IUser) (u : IUser) :
  find (has_id i) us = Some u -> In u us /\ user_id u = i.
Proof.
  intros H. apply find_some in H. destruct H as [Hin Hid].
  split; [exact Hin | exact (has_id_eq _ _ Hid)].
Qed.

(** X9. [updateCurrentUserPassword] touches neither tokens nor outbox and
    changes no identifier, name, email or confirmed flag, nor any other
    account. For a stored account, a current password the utility refuses
    gets the 401 answer with nothing written; an accepted one gets the
    success answer with the stored hash replaced when the save resolves,
    and the bare 500 answer with nothing written when it rejects. *)
Theorem updateCurrentUserPassword_spec
  (hashPassword : string -> string) (checkPassword : string -> string -> bool)
  (env : Env) (req_user : ObjectId) (current_password password : string) (w : World) :
  let run := AuthController.updateCurrentUserPassword hashPassword checkPassword env
               req_user current_password password w in
  tokens (snd run) = tokens w /\
  outbox (snd run) = outbox w /\
  map profile (users (snd run)) = map profile (users w) /\
  (forall v, In v (users w) -> user_id v <> req_user -> In v (users (snd run))) /\
  (forall u,
   resolves env User_findById = true ->
   find (has_id req_user) (users w) = Some u ->
   if checkPassword current_password (user_password u)
   then if resolves env User_save
        then fst run = res_send (Message "El password se modificó correctamente") /\
             find (has_id req_user) (users (snd run))
             = Some (set_password (hashPassword password) u)
        else run = (res_status_send 500 "Hubo un error", w)
   else run = (res_status_json_error 401 "El Password actual es incorrecto", w)).
Proof.
  unfold AuthController.updateCurrentUserPassword. unfold_handler.
  destruct (resolves env User_findById); simpl.
  - destruct (find (has_id req_user) (users w)) as [u|] eqn:Hu; simpl.
    + destruct (find_has_id _ _ _ Hu) as [Hin Hid]. rewrite Hid.
      destruct (checkPassword current_password (user_password u)) eqn:Hcheck; simpl.
      * destruct (resolves env User_save); simpl.
        -- split; [reflexivity|]. split; [reflexivity|].
           split; [apply update_map; reflexivity|].
           split; [intros v Hv Hne; apply update_other; assumption|].
           intros u' _ Hu'. injection Hu' as <-. rewrite Hcheck. split; [reflexivity|].
           rewrite find_update by apply set_password_id. rewrite Hu. reflexivity.
        -- split; [reflexivity|]. split; [reflexivity|]. split; [reflexivity|].
           split; [tauto|].
           intros u' _ Hu'. injection Hu' as <-. rewrite Hcheck. destruct w; reflexivity.
      * split; [reflexivity|]. split; [reflexivity|]. split; [reflexivity|].
        split; [tauto|].
        intros u' _ Hu'. injection Hu' as <-. rewrite Hcheck. destruct w; reflexivity.
    + split; [reflexivity|]. split; [reflexivity|]. split; [reflexivity|].
      split; [tauto|]. intros u' _ Hu'. discriminate.
  - split; [reflexivity|]. split; [reflexivity|]. split; [reflexivity|].
    split; [tauto|]. intros u' H. discriminate.
Qed.

Lemma updateCurrentUserPassword_spec_witness :
  AuthController.updateCurrentUserPassword sample_hash sample_check (env_ok "") 0
    "guess" "new" ann_world
  = (res_status_json_error 401 "El Password actual es incorrecto", ann_world).
Proof.
  pose proof (updateCurrentUserPassword_spec sample_hash sample_check (env_ok "") 0
                "guess" "new" ann_world) as H.
  destruct H as [_ [_ [_ [_ H]]]].
  exact (H (mkUser 0 "Ann" "ann@x.com" "$2b$10$pw123" false) eq_refl eq_refl).
Defined.

(** X10. The [checkPassword] action only reads: the world is unchanged
    whatever resolves. For a stored account it answers the correct-password
    message exactly when the utility accepts the password against the stored
    hash, and the 401 answer otherwise; for a missing account it throws
    outside any [try] and writes no answer. *)
Theorem checkPassword_read_only
  (checkPassword : string -> string -> bool)
  (env : Env) (req_user : ObjectId) (password : string) (w : World) :
  let run := AuthController.checkPassword' checkPassword env req_user password w in
  snd run = w /\
  (resolves env User_findById = true ->
   match find (has_id req_user) (users w) with
   | Some u =>
       fst run = if checkPassword password (user_password u)
                 then res_send (Message "Password Correcto")
                 else res_status_json_error 401 "El Password es incorrecto"
   | None => fst run = unhandled_rejection
   end).
Proof.
  unfold AuthController.checkPassword'. unfold_handler.
  destruct (resolves env User_findById); simpl.
  - destruct (find (has_id req_user) (users w)) as [u|]; simpl.
    + destruct (checkPassword password (user_password u)); simpl;
        split; try reflexivity; intros _; reflexivity.
    + split; [reflexivity | intros _; reflexivity].
  - split; [reflexivity | discriminate].
Qed.

Lemma checkPassword_read_only_witness :
  fst (AuthController.checkPassword' sample_check (env_ok "") 0 "pw123" ann_world)
  = res_send (Message "Password Correcto") /\
  fst (AuthController.checkPassword' sample_check (env_ok "") 7 "pw123" ann_world)
  = unhandled_rejection.
Proof.
  split.
  - exact (proj2 (checkPassword_read_only sample_check (env_ok "") 0 "pw123" ann_world)
             eq_refl).
  - exact (proj2 (checkPassword_read_only sample_check (env_ok "") 7 "pw123" ann_world)
             eq_refl).
Defined.

(** X11. Change, then check. After [updateCurrentUserPassword] has saved a
    new password, the [checkPassword] action accepts the new password,
    provided the utility accepts a password against its own hash, and
    answers 401 for any password the utility refuses against the new hash
    (the old one included). *)
Theorem change_then_check
  (hashPassword : string -> string) (checkPassword : string -> string -> bool)
  (env1 env2 : Env) (req_user : ObjectId) (current_password password : string)
  (w : World) (u : IUser) :
  resolves env1 User_findById = true ->
  resolves env1 User_save = true ->
  resolves env2 User_findById = true ->
  find (has_id req_user) (users w) = Some u ->
  checkPassword current_password (user_password u) = true ->
  checkPassword password (hashPassword password) = true ->
  let w' := snd (AuthController.updateCurrentUserPassword hashPassword checkPassword env1
                   req_user current_password password w) in
  fst (AuthController.checkPassword' checkPassword env2 req_user password w')
  = res_send (Message "Password Correcto") /\
  (forall other, checkPassword other (hashPassword password) = false ->
   fst (AuthController.checkPassword' checkPassword env2 req_user other w')
   = res_status_json_error 401 "El Password es incorrecto").
Proof.
  intros Hf1 Hs1 Hf2 Hu Hcur Hnew.
  destruct (find_has_id _ _ _ Hu) as [_ Hid].
  assert (Hfound : find (has_id req_user)
                     (User.update (user_id u) (set_password (hashPassword password)) (users w))
                   = Some (set_password (hashPassword password) u)).
  { rewrite Hid, find_update by apply set_password_id. rewrite Hu. reflexivity. }
  unfold AuthController.updateCurrentUserPassword, AuthController.checkPassword'.
  unfold_handler. rewrite Hf1, Hf2. simpl. rewrite Hu. simpl. rewrite Hcur. simpl.
  rewrite Hs1. simpl. rewrite Hfound. simpl. split.
  - rewrite Hnew. reflexivity.
  - intros other Hother. rewrite Hother. reflexivity.
Qed.

Lemma sample_check_other (p q : string) : p <> q -> sample_check p (sample_hash q) = false.
Proof.
  intros Hne. unfold sample_check, sample_hash. apply String.eqb_neq.
  intros H. apply Hne. simpl in H. repeat (injection H as H). symmetry. exact H.
Qed.

Lemma change_then_check_witness :
  let w' := snd (AuthController.updateCurrentUserPassword sample_hash sample_check (env_ok "")
                   0 "pw123" "new" ann_world) in
  fst (AuthController.checkPassword' sample_check (env_ok "") 0 "new" w')
  = res_send (Message "Password Correcto") /\
  fst (AuthController.checkPassword' sample_check (env_ok "") 0 "pw123" w')
  = res_status_json_error 401 "El Password es incorrecto".
Proof.
  destruct (change_then_check sample_hash sample_check (env_ok "") (env_ok "") 0
              "pw123" "new" ann_world (mkUser 0 "Ann" "ann@x.com" "$2b$10$pw123" false)
              eq_refl eq_refl eq_refl eq_refl eq_refl (sample_check_hash "new"))
    as [Hnew Hold].
  split; [exact Hnew | apply Hold; reflexivity].
Defined.

(** ** Tokens across operations *)

Lemma find_none_filter {A : Type} (p q : A -> bool) (l : list A) :
  find p l = None -> find p (filter q l) = None.
Proof.
  induction l as [|a l IH]; simpl; [reflexivity|].
  destruct (p a) eqn:Hp; [discriminate|]. intros H.
  destruct (q a); simpl; [rewrite Hp|]; exact (IH H).
Qed.

Lemma find_email_update (i : ObjectId) (e : string) (f : IUser -> IUser)
  (us : list IUser) (u : IUser) :
  (forall v, has_email e (f v) = has_email e v) ->
  find (has_id i) us = Some u ->
  find (has_email e) us = Some u ->
  find (has_email e) (User.update i f us) = Some (f u).
Proof.
  intros Hf. induction us as [|a us IH]; simpl; [discriminate|].
  intros Hid He.
  destruct (has_id i a) eqn:Ha; destruct (has_email e a) eqn:Hea.
  - injection Hid as <-. unfold has_id in Ha. rewrite Ha. simpl. rewrite Hf, Hea. reflexivity.
  - injection Hid as <-. apply find_some in He. destruct He as [_ He]. congruence.
  - injection He as <-. apply find_some in Hid. destruct Hid as [_ Hid]. congruence.
  - unfold has_id in Ha. rewrite Ha. simpl. rewrite Hea. exact (IH Hid He).
Qed.

(** X12. Reset, then log in. After [updatePasswordWithToken] with a live
    token of a confirmed account, logging in with that account's email and
    the new password yields its credential, provided the password utility
    accepts a password against its own hash. *)
Theorem reset_then_login
  (hashPassword : string -> string) (checkPassword : string -> string -> bool)
  (generateJWT : ObjectId -> string) (env1 env2 : Env)
  (code email password : string) (w : World) (t : IToken) (u : IUser) :
  all_resolve env1 ->
  resolves env2 User_findOne = true ->
  find (has_code code) (tokens w) = Some t ->
  find (has_id (token_user t)) (users w) = Some u ->
  find (has_email email) (users w) = Some u ->
  user_confirmed u = true ->
  checkPassword password (hashPassword password) = true ->
  let w' := snd (AuthController.updatePasswordWithToken hashPassword env1 code password w) in
  AuthController.login checkPassword generateJWT env2 email password w'
  = (res_send (Jwt (generateJWT (user_id u))), w').
Proof.
  intros H1 H2 Ht Hu He Hc Hcheck.
  destruct (find_has_id _ _ _ Hu) as [_ Hid].
  pose proof (find_email_update (token_user t) email (set_password (hashPassword password))
                (users w) u (fun v => eq_refl) Hu He) as Hfound.
  unfold AuthController.updatePasswordWithToken, AuthController.login. unfold_handler.
  rewrite !H1, H2. simpl. rewrite Ht. simpl. rewrite Hu. simpl.
  rewrite Hid, Hfound. simpl. rewrite Hc. simpl. rewrite Hcheck. simpl.
  rewrite Hid. reflexivity.
Qed.

Lemma reset_then_login_witness :
  let w1 := snd (AuthController.forgotPassword (env_ok "777777") "ann@x.com"
                   ann_confirmed_world) in
  let w2 := snd (AuthController.updatePasswordWithToken sample_hash (env_ok "")
                   "777777" "fresh" w1) in
  fst (AuthController.login sample_check sample_jwt (env_ok "") "ann@x.com" "fresh" w2)
  = res_send (Jwt "jwt.0").
Proof.
  pose proof (reset_then_login sample_hash sample_check sample_jwt (env_ok "") (env_ok "")
                "777777" "ann@x.com" "fresh"
                (snd (AuthController.forgotPassword (env_ok "777777") "ann@x.com"
                        ann_confirmed_world))
                (mkToken 2 "777777" 0) (mkUser 0 "Ann" "ann@x.com" "$2b$10$pw123" true)
                (all_resolve_env_ok "") eq_refl eq_refl eq_refl eq_refl eq_refl
                (sample_check_hash "fresh")) as H.
  exact (f_equal fst H).
Defined.

(** X13. Tokens carry no purpose. The token [forgotPassword] issues to an
    unconfirmed account is accepted by [confirmAccount]: with a code no
    other stored token carries, confirming with the reset code answers the
    success message and the account is Confirmed. *)
Theorem reset_token_confirms
  (env1 env2 : Env) (email : string) (w : World) (u : IUser) :
  wf w ->
  one_token_per_account (tokens w) ->
  all_resolve env1 ->
  all_resolve env2 ->
  find (has_email email) (users w) = Some u ->
  find (has_code (generateToken env1)) (tokens w) = None ->
  let w1 := snd (AuthController.forgotPassword env1 email w) in
  let run := AuthController.confirmAccount env2 (generateToken env1) w1 in
  fst run = res_send (Message "Cuenta confirmada correctamente") /\
  find (has_id (user_id u)) (users (snd run)) = Some (set_confirmed true u) /\
  tokens_of (user_id u) (tokens (snd run)) = [].
Proof.
  intros Hwf Hone H1 H2 Hu Hcode.
  destruct (find_some _ _ Hu) as [Hin _].
  assert (Hbyid : find (has_id (user_id u)) (users w) = Some u).
  { destruct (find (has_id (user_id u)) (users w)) as [v|] eqn:Hv.
    - destruct (find_has_id _ _ _ Hv) as [Hvin Hvid].
      f_equal. exact (NoDup_map_inj user_id (users w) v u (wf_user_ids w Hwf) Hvin Hin Hvid).
    - pose proof (find_none _ _ Hv u Hin) as Hf. unfold has_id in Hf.
      rewrite Nat.eqb_refl in Hf. discriminate. }
  pose proof (delete_previous (user_id u) (tokens w) (wf_token_ids w Hwf) Hone) as Hdel.
  assert (Hcode' : find (has_code (generateToken env1)) (without (user_id u) (tokens w)) = None).
  { apply find_none_filter. exact Hcode. }
  assert (Htid : forall x, In x (without (user_id u) (tokens w)) ->
            token_id x <> token_id (mkToken (next_id w) (generateToken env1) (user_id u))).
  { intros x Hx. apply filter_In in Hx. destruct Hx as [Hx _].
    destruct (wf_token_bound w Hwf x Hx). simpl. lia. }
  pose proof (remove_id_snoc_fresh _ _ Htid) as Hrm. simpl in Hrm.
  unfold AuthController.forgotPassword, AuthController.confirmAccount. unfold_handler.
  rewrite !H1, !H2. simpl. rewrite Hu. simpl.
  assert (Hshape : forall found,
            found = find (owned_by (user_id u)) (tokens w) ->
            match found with
            | Some t0 => Token.remove_id (token_id t0) (tokens w)
            | None => tokens w
            end = without (user_id u) (tokens w))
    by (intros found ->; exact Hdel).
  destruct (find (owned_by (user_id u)) (tokens w)) as [t0|] eqn:Hprev; simpl;
    specialize (Hshape _ eq_refl); simpl in Hshape; rewrite Hshape;
    rewrite find_snoc, Hcode', has_code_self; simpl; rewrite Hbyid; simpl;
    rewrite Hrm; (split; [reflexivity|]); (split; [|apply tokens_of_without]);
    rewrite find_update by apply set_confirmed_id; rewrite Hbyid; reflexivity.
Qed.

Lemma reset_token_confirms_witness :
  let w1 := snd (AuthController.forgotPassword (env_ok "777777") "ann@x.com" ann_world) in
  let run := AuthController.confirmAccount (env_ok "") "777777" w1 in
  fst run = res_send (Message "Cuenta confirmada correctamente") /\
  find (has_id 0) (users (snd run)) = Some (mkUser 0 "Ann" "ann@x.com" "$2b$10$pw123" true).
Proof.
  pose proof (reset_token_confirms (env_ok "777777") (env_ok "") "ann@x.com" ann_world
                (mkUser 0 "Ann" "ann@x.com" "$2b$10$pw123" false)
                ann_world_wf ann_world_one_token (all_resolve_env_ok "777777")
                (all_resolve_env_ok "") eq_refl eq_refl) as H.
  destruct H as [Hr [Hu _]]. split; [exact Hr | exact Hu].
Defined.

(** X14. [validateToken] and [updatePasswordWithToken] agree on which codes
    are invalid: with the token lookup resolving, one answers the 404
    invalid-token error for a code exactly when the other does, on the same
    store. *)
Theorem validate_agrees_with_reset
  (hashPassword : string -> string) (env1 env2 : Env) (code password : string) (w : World) :
  resolves env1 Token_findOne = true ->
  resolves env2 Token_findOne = true ->
  (fst (AuthController.validateToken env1 code w)
   = res_status_json_error 404 "Token no válido"
   <-> fst (AuthController.updatePasswordWithToken hashPassword env2 code password w)
       = res_status_json_error 404 "Token no válido") /\
  (fst (AuthController.validateToken env1 code w)
   = res_send (Message "Token válido, Define tu nuevo password")
   <-> exists t, find (has_code code) (tokens w) = Some t).
Proof.
  intros H1 H2.
  unfold AuthController.validateToken, AuthController.updatePasswordWithToken.
  unfold_handler. rewrite H1, H2. simpl.
  destruct (find (has_code code) (tokens w)) as [t|]; simpl.
  - split.
    + split; [discriminate|].
      destruct (resolves env2 User_findById); simpl; [|discriminate].
      destruct (find (has_id (token_user t)) (users w)); simpl; [|discriminate].
      destruct (resolves env2 User_save), (resolves env2 Token_deleteOne); discriminate.
    + split; [intros _; exists t; reflexivity | reflexivity].
  - split.
    + split; reflexivity.
    + split; [discriminate | intros [t Ht]; discriminate].
Qed.

Lemma validate_agrees_with_reset_witness :
  fst (AuthController.updatePasswordWithToken sample_hash (env_ok "") "000000" "x" ann_world)
  = res_status_json_error 404 "Token no válido" /\
  exists t, find (has_code "123456") (tokens ann_world) = Some t.
Proof.
  split.
  - apply (proj1 (validate_agrees_with_reset sample_hash (env_ok "") (env_ok "")
                    "000000" "x" ann_world eq_refl eq_refl)).
    reflexivity.
  - apply (proj2 (validate_agrees_with_reset sample_hash (env_ok "") (env_ok "")
                    "123456" "x" ann_world eq_refl eq_refl)).
    reflexivity.
Defined.

(** ** Profile *)

Lemma find_email_profile (e : string) (f : IUser -> IUser) (us : list IUser) (u : IUser) :
  NoDup (map user_id us) ->
  In u us ->
  (forall v, In v us -> has_email e v = true -> v = u) ->
  has_email e (f u) = true ->
  find (has_email e) (User.update (user_id u) f us) = Some (f u).
Proof.
  intros Hnd Hin Honly Hf. induction us as [|a us IH]; simpl in *; [tauto|].
  inversion Hnd as [|? ? Hnotin Hnd']; subst.
  destruct (Nat.eqb_spec (user_id a) (user_id u)) as [Heq|Hne]; simpl.
  - assert (a = u) as ->.
    { destruct Hin as [-> | Hin]; [reflexivity|].
      exfalso. apply Hnotin. rewrite Heq. apply in_map. exact Hin. }
    rewrite Hf. reflexivity.
  - destruct (has_email e a) eqn:Ha.
    + exfalso. apply Hne. rewrite (Honly a (or_introl eq_refl) Ha). reflexivity.
    + apply IH; [exact Hnd' | | ].
      * destruct Hin as [-> | Hin]; [congruence | exact Hin].
      * intros v Hv. apply Honly. right. exact Hv.
Qed.

(** X15. A permitted [updateProfile] whose calls resolve answers the
    success message and writes the submitted name and the normalized email
    to the requesting account only: its password hash and confirmed flag,
    every other account, the tokens and the outbox are as before, and a
    lookup by the new email now finds that account. *)
Theorem updateProfile_effect
  (env : Env) (req_user : ObjectId) (name email : string) (w : World) (u : IUser) :
  wf w ->
  resolves env User_findOne = true ->
  resolves env User_save = true ->
  In u (users w) ->
  user_id u = req_user ->
  (forall v, In v (users w) -> has_email email v = true -> v = u) ->
  let run := AuthController.updateProfile env req_user name email w in
  fst run = res_send (Message "Perfil actualizado correctamente") /\
  tokens (snd run) = tokens w /\
  outbox (snd run) = outbox w /\
  find (has_email email) (users (snd run))
  = Some (mkUser req_user name (email_setter email) (user_password u) (user_confirmed u)) /\
  (forall v, In v (users w) -> user_id v <> req_user -> In v (users (snd run))) /\
  length (users (snd run)) = length (users w).
Proof.
  intros Hwf Hf Hs Hin Hid Honly.
  pose proof (find_email_profile email (set_name_email name email) (users w) u
                (wf_user_ids w Hwf) Hin Honly (has_email_self _ _ _ _ _)) as Hfound.
  rewrite Hid in Hfound.
  assert (Hlen : forall us, length (User.update req_user (set_name_email name email) us)
                            = length us).
  { intros us. rewrite <- (length_map user_id), update_map by reflexivity.
    apply length_map. }
  unfold AuthController.updateProfile. unfold_handler. rewrite Hf, Hs. simpl.
  destruct (find (has_email email) (users w)) as [ue|] eqn:Hue; simpl.
  - destruct (find_some _ _ Hue) as [Huin Hue'].
    rewrite (Honly ue Huin Hue'), Hid, Nat.eqb_refl. simpl.
    split; [reflexivity|]. split; [reflexivity|]. split; [reflexivity|].
    split; [rewrite Hfound; unfold set_name_email; rewrite Hid; reflexivity|].
    split; [intros v Hv Hne; apply update_other; assumption | apply Hlen].
  - split; [reflexivity|]. split; [reflexivity|]. split; [reflexivity|].
    split; [rewrite Hfound; unfold set_name_email; rewrite Hid; reflexivity|].
    split; [intros v Hv Hne; apply update_other; assumption | apply Hlen].
Qed.

Lemma ann_bob_world_wf : wf ann_bob_world.
Proof.
  split; simpl.
  - repeat constructor; simpl; intuition discriminate.
  - repeat constructor; simpl; intuition discriminate.
  - intros t [<- | [<- | []]]; simpl; lia.
  - intros u [<- | [<- | []]]; simpl; lia.
Qed.

Lemma updateProfile_effect_witness :
  find (has_email "ANN@new.org")
    (users (snd (AuthController.updateProfile (env_ok "") 0 "Ann N." "ANN@new.org"
                   ann_bob_world)))
  = Some (mkUser 0 "Ann N." "ann@new.org" "$2b$10$pw123" false).
Proof.
  pose proof (updateProfile_effect (env_ok "") 0 "Ann N." "ANN@new.org" ann_bob_world
                (mkUser 0 "Ann" "ann@x.com" "$2b$10$pw123" false)
                ann_bob_world_wf eq_refl eq_refl (or_introl eq_refl) eq_refl) as H.
  assert (Honly : forall v, In v (users ann_bob_world) ->
                    has_email "ANN@new.org" v = true ->
                    v = mkUser 0 "Ann" "ann@x.com" "$2b$10$pw123" false).
  { intros v [<- | [<- | []]] Hv; [reflexivity | discriminate Hv]. }
  exact (proj1 (proj2 (proj2 (proj2 (H Honly))))).
Defined.

(** ** What no request does *)

Lemma account_evolves_refl (u : IUser) : account_evolves u u.
Proof. split; [reflexivity | tauto]. Qed.

Lemma Forall2_evolves_refl (us : list IUser) : Forall2 account_evolves us us.
Proof.
  induction us as [|a us IH]; constructor; [apply account_evolves_refl | exact IH].
Qed.

Lemma accounts_evolve_refl (us : list IUser) : accounts_evolve us us.
Proof.
  exists us, []. split; [symmetry; apply app_nil_r | apply Forall2_evolves_refl].
Qed.

Lemma accounts_evolve_snoc (us : list IUser) (u : IUser) : accounts_evolve us (us ++ [u]).
Proof.
  exists us, [u]. split; [reflexivity | apply Forall2_evolves_refl].
Qed.

Lemma accounts_evolve_update (i : ObjectId) (f : IUser -> IUser) (us : list IUser) :
  (forall v, account_evolves v (f v)) -> accounts_evolve us (User.update i f us).
Proof.
  intros Hf. exists (User.update i f us), []. split; [symmetry; apply app_nil_r|].
  induction us as [|a us IH]; simpl; [constructor|].
  destruct (Nat.eqb (user_id a) i); constructor;
    try apply Hf; try apply account_evolves_refl; try apply Forall2_evolves_refl; exact IH.
Qed.

Lemma accounts_evolve_trans (us1 us2 us3 : list IUser) :
  accounts_evolve us1 us2 -> accounts_evolve us2 us3 -> accounts_evolve us1 us3.
Proof.
  intros [k1 [e1 [-> H1]]] [k2 [e2 [-> H2]]].
  apply Forall2_app_inv_l in H2. destruct H2 as [k2a [k2b [Ha [Hb ->]]]].
  exists k2a, (k2b ++ e2)%list. split; [symmetry; apply app_assoc|].
  clear Hb. revert k2a Ha. induction H1 as [|u u1 us k1 Hu _ IH]; intros k2a Ha.
  - inversion Ha. constructor.
  - inversion Ha as [|? u2 ? k2' Hu2 Hrest]; subst. constructor; [|exact (IH _ Hrest)].
    destruct Hu as [Hid Hc], Hu2 as [Hid2 Hc2]. split; [congruence | tauto].
Qed.

Ltac evolve_cases :=
  handler_cases;
  first [ apply accounts_evolve_refl
        | apply accounts_evolve_snoc
        | apply accounts_evolve_update; intros v; split; simpl; tauto ].

Lemma controller_step_evolves (w w' : World) :
  controller_step w w' -> accounts_evolve (users w) (users w').
Proof.
  intros Hstep. destruct Hstep as [w w' Hstep| |].
  - destruct Hstep; destruct w as [us ts ob n].
    + unfold AuthController.createAccount. unfold_handler. evolve_cases.
    + unfold AuthController.confirmAccount. unfold_handler. evolve_cases.
    + unfold AuthController.login. unfold_handler. evolve_cases.
    + unfold AuthController.requestConfirmationCode. unfold_handler. evolve_cases.
    + unfold AuthController.forgotPassword. unfold_handler. evolve_cases.
    + unfold AuthController.validateToken. unfold_handler. evolve_cases.
    + unfold AuthController.updatePasswordWithToken. unfold_handler. evolve_cases.
    + unfold AuthController.updateProfile. unfold_handler. evolve_cases.
  - destruct w as [us ts ob n].
    unfold AuthController.updateCurrentUserPassword. unfold_handler. evolve_cases.
  - destruct w as [us ts ob n].
    unfold AuthController.checkPassword'. unfold_handler. evolve_cases.
Qed.

(** X16. No sequence of requests to the controller deletes an account,
    changes an account's [_id] or its place in the collection, or turns a
    confirmed account back into an unconfirmed one, whatever resolves or
    rejects along the way. *)
Theorem accounts_never_lost (w w' : World) :
  controller_reachable w w' ->
  accounts_evolve (users w) (users w') /\
  (forall i u, nth_error (users w) i = Some u ->
     exists u', nth_error (users w') i = Some u' /\
                user_id u' = user_id u /\
                (user_confirmed u = true -> user_confirmed u' = true)).
Proof.
  intros Hreach.
  assert (Hev : accounts_evolve (users w) (users w')).
  { induction Hreach as [|w1 w2 _ IH Hstep]; [apply accounts_evolve_refl|].
    exact (accounts_evolve_trans _ _ _ IH (controller_step_evolves w1 w2 Hstep)). }
  split; [exact Hev|].
  destruct Hev as [kept [extra [-> Hall]]]. clear Hreach.
  induction Hall as [|u u' us kept Hu _ IH]; intros i v Hi.
  - destruct i; discriminate.
  - destruct i as [|i]; simpl in *.
    + injection Hi as <-. exists u'. split; [reflexivity | exact Hu].
    + exact (IH i v Hi).
Qed.

Lemma ann_renamed_reachable :
  controller_reachable ann_confirmed_world
    (snd (AuthController.updateProfile (env_ok "") 0 "Ann N." "ann@new.org"
            ann_confirmed_world)).
Proof.
  apply creach_step with (w1 := ann_confirmed_world); [apply creach_here|].
  apply step_lifecycle.
  apply (step_updateProfile (env_ok "") 0 "Ann N." "ann@new.org" ann_confirmed_world).
Qed.

Lemma accounts_never_lost_witness :
  exists u',
    nth_error (users (snd (AuthController.updateProfile (env_ok "") 0 "Ann N." "ann@new.org"
                             ann_confirmed_world))) 0 = Some u' /\
    user_id u' = 0 /\ (true = true -> user_confirmed u' = true).
Proof.
  exact (proj2 (accounts_never_lost _ _ ann_renamed_reachable)
           0 (mkUser 0 "Ann" "ann@x.com" "$2b$10$pw123" true) eq_refl).
Defined.

Lemma Forall2_confirmed_refl (found : option IToken) (us : list IUser) :
  Forall2 (confirmed_by found) us us.
Proof.
  induction us as [|a us IH]; constructor; [left; reflexivity | exact IH].
Qed.

Lemma Forall2_confirmed_update (t : IToken) (us : list IUser) :
  Forall2 (confirmed_by (Some t)) us (User.update (token_user t) (set_confirmed true) us).
Proof.
  induction us as [|a us IH]; simpl; [constructor|].
  destruct (Nat.eqb_spec (user_id a) (token_user t)) as [Heq|Hne]; constructor.
  - right. split; [reflexivity|]. exists t. split; [reflexivity | symmetry; exact Heq].
  - apply Forall2_confirmed_refl.
  - left. reflexivity.
  - exact IH.
Qed.

(** X17. [confirmAccount] changes at most one thing about the accounts: the
    confirmed flag of the first account whose [_id] the found token
    references. Every account is either as it was or that account with the
    flag set; no account is added or removed; it stores no token, sends
    nothing, and every token it leaves was there before. *)
Theorem confirmAccount_touches_owner_only (env : Env) (token : string) (w : World) :
  let w' := snd (AuthController.confirmAccount env token w) in
  Forall2 (confirmed_by (find (has_code token) (tokens w))) (users w) (users w') /\
  outbox w' = outbox w /\
  (forall x, In x (tokens w') -> In x (tokens w)).
Proof.
  unfold AuthController.confirmAccount. unfold_handler.
  destruct (resolves env Token_findOne); simpl;
    [|split; [apply Forall2_confirmed_refl | tauto]].
  destruct (find (has_code token) (tokens w)) as [t|]; simpl;
    [|split; [apply Forall2_confirmed_refl | tauto]].
  destruct (resolves env User_findById); simpl;
    [|split; [apply Forall2_confirmed_refl | tauto]].
  destruct (find (has_id (token_user t)) (users w)) as [u|] eqn:Hu; simpl;
    [|split; [apply Forall2_confirmed_refl | tauto]].
  destruct (find_has_id _ _ _ Hu) as [_ Hid]. rewrite Hid.
  destruct (resolves env User_save), (resolves env Token_deleteOne); simpl;
    (split; [first [apply Forall2_confirmed_update | apply Forall2_confirmed_refl]|]);
    (split; [reflexivity|]); intros x Hx;
    first [exact Hx | exact (remove_id_incl _ _ _ Hx)].
Qed.




Lemma remove_id_length (i : ObjectId) (ts : list IToken) :
  length (Token.remove_id i ts) <= length ts.
Proof.
  induction ts as [|a ts IH]; simpl; [lia|].
  destruct (Nat.eqb (token_id a) i); simpl; lia.
Qed.

Ltac traffic_cases :=
  handler_cases;
  (split; [first [left; reflexivity | right; eexists; reflexivity]|]);
  rewrite ?length_app; simpl;
  repeat match goal with
         | |- context [length (Token.remove_id ?i ?l)] =>
             let H := fresh "Hlen" in
             pose proof (remove_id_length i l) as H;
             generalize dependent (length (Token.remove_id i l)); intros
         end;
  lia.

(** X19. A request sends at most one email and stores at most one new
    token: after any request the outbox is the old outbox or the old outbox
    with one message appended, and the token collection has grown by at most
    one document. *)
Theorem one_mail_one_token_per_request (w w' : World) :
  controller_step w w' ->
  appends_at_most_one (outbox w) (outbox w') /\
  length (tokens w') <= S (length (tokens w)).
Proof.
  intros Hstep. unfold appends_at_most_one.
  destruct Hstep as [w w' Hstep| |].
  - destruct Hstep; destruct w as [us ts ob n].
    + unfold AuthController.createAccount. unfold_handler. traffic_cases.
    + unfold AuthController.confirmAccount. unfold_handler. traffic_cases.
    + unfold AuthController.login. unfold_handler. traffic_cases.
    + unfold AuthController.requestConfirmationCode. unfold_handler. traffic_cases.
    + unfold AuthController.forgotPassword. unfold_handler. traffic_cases.
    + unfold AuthController.validateToken. unfold_handler. traffic_cases.
    + unfold AuthController.updatePasswordWithToken. unfold_handler. traffic_cases.
    + unfold AuthController.updateProfile. unfold_handler. traffic_cases.
  - destruct w as [us ts ob n].
    unfold AuthController.updateCurrentUserPassword. unfold_handler. traffic_cases.
  - destruct w as [us ts ob n].
    unfold AuthController.checkPassword'. unfold_handler. traffic_cases.
Qed.

Lemma one_mail_one_token_per_request_witness :
  appends_at_most_one (outbox empty_world) (outbox ann_world) /\
  length (tokens ann_world) <= S (length (tokens empty_world)).
Proof.
  apply one_mail_one_token_per_request. apply step_lifecycle.
  apply (step_register sample_hash (env_ok "123456") "Ann" "ann@x.com" "pw123" empty_world).
Defined.

(** * Further properties of the project routes *)

Module RouteOrder.
Import ProjectRoutes.

(** X20. Whatever else a request carries and whatever [hasAuthorization]
    would decide, on every route a request without a resolved account is
    rejected by [authenticate], and on every route with [:projectId] a
    request whose project does not exist is rejected as not found, before
    input validation and before authorization. *)
Theorem rejection_precedence
  (gate : ObjectId -> Project -> bool) (a : Action) (req : Request) :
  (req_user req = None -> dispatch gate a req = Rejected AuthError) /\
  (req_user req <> None -> req_project req = None -> has_projectId a = true ->
   dispatch gate a req = Rejected NotFound).
Proof.
  unfold dispatch, chain. split.
  - intros Hu. simpl. rewrite Hu. reflexivity.
  - intros Hu Hp Ha. rewrite Ha. simpl.
    destruct (req_user req); [|congruence]. rewrite Hp. reflexivity.
Qed.

Lemma rejection_precedence_witness :
  dispatch owner_only getProjectTasks (mkRequest None (Some project_P) true true true)
  = Rejected AuthError /\
  dispatch owner_only updateStatus (mkRequest (Some 2) None true true false)
  = Rejected NotFound.
Proof.
  split.
  - apply (proj1 (rejection_precedence owner_only getProjectTasks
                    (mkRequest None (Some project_P) true true true))).
    reflexivity.
  - apply (proj2 (rejection_precedence owner_only updateStatus
                    (mkRequest (Some 2) None true true false)));
      [discriminate | reflexivity | reflexivity].
Defined.

(** X21. Wherever [hasAuthorization] stands in the chain of a route,
    [authenticate] and [projectExist] stand before it and it does not occur
    again after: the gate never runs without a resolved account and a
    loaded project, and never twice. *)
Theorem gate_after_account_and_project (a : Action) (pre post : list Middleware) :
  chain a = (pre ++ hasAuthorization :: post)%list ->
  In authenticate pre /\ In projectExist pre /\ ~ In hasAuthorization post.
Proof.
  intros H.
  assert (Hpre : forall m, In m (authenticate :: projectExist :: nil) -> In m pre /\
                 ~ In hasAuthorization post).
  { destruct a; unfold chain in H; simpl in H;
      repeat (destruct pre as [|? pre]; simpl in H;
              [try discriminate H | injection H as <- H]);
      try discriminate H;
      try (destruct pre; discriminate H);
      try (injection H as <-; intros m [<- | [<- | []]]; simpl;
           split; try tauto; intros Hin; repeat (destruct Hin as [Hin | Hin]);
           try discriminate Hin; tauto). }
  split; [apply (Hpre authenticate); left; reflexivity|].
  split; [apply (Hpre projectExist); right; left; reflexivity|].
  apply (Hpre authenticate). left. reflexivity.
Qed.

Lemma gate_after_account_and_project_witness :
  In authenticate [authenticate; projectExist; taskExists; taskBelongToProject] /\
  In projectExist [authenticate; projectExist; taskExists; taskBelongToProject] /\
  ~ In hasAuthorization [handleInputsErrors].
Proof.
  exact (gate_after_account_and_project updateStatus
           [authenticate; projectExist; taskExists; taskBelongToProject]
           [handleInputsErrors] eq_refl).
Defined.

(** X22. On the three task routes the gate runs before input validation,
    on the two project routes after it: a request with invalid inputs from
    an account the gate refuses is rejected as Unauthorized on task update,
    task delete and task-status update, and for its inputs on project update
    and project delete. *)
Theorem validation_and_authorization_order
  (gate : ObjectId -> Project -> bool) (u : ObjectId) (p : Project) :
  gate u p = false ->
  let req := mkRequest (Some u) (Some p) true true false in
  dispatch gate updateTask req = Rejected Unauthorized /\
  dispatch gate deleteTask req = Rejected Unauthorized /\
  dispatch gate updateStatus req = Rejected Unauthorized /\
  dispatch gate updateProject req = Rejected InvalidInput /\
  dispatch gate deleteProject req = Rejected InvalidInput.
Proof.
  intros Hgate. unfold dispatch. simpl. rewrite Hgate. repeat split.
Qed.

Lemma validation_and_authorization_order_witness :
  dispatch owner_only updateStatus (mkRequest (Some 2) (Some project_P) true true false)
  = Rejected Unauthorized /\
  dispatch owner_only deleteProject (mkRequest (Some 2) (Some project_P) true true false)
  = Rejected InvalidInput.
Proof.
  destruct (validation_and_authorization_order owner_only 2 project_P eq_refl)
    as [_ [_ [Hs [_ Hd]]]].
  split; [exact Hs | exact Hd].
Defined.

(** X23. The routes that consult [hasAuthorization] are exactly project
    update, project delete, task update, task delete and task-status
    update. For a request that passes the checks before it, whatever the
    gate is, on these five routes the request reaches its controller action
    when the gate lets the account through and is rejected as Unauthorized
    when it does not; on each of the other thirteen routes, task creation,
    the team routes and the note routes among them, it reaches the
    controller action whatever the gate would decide. *)
Theorem gate_decides_gated_routes_only
  (gate : ObjectId -> Project -> bool) (u : ObjectId) (p : Project) (a : Action) :
  dispatch gate a (request_of u p)
  = match a with
    | updateProject | deleteProject | updateTask | deleteTask | updateStatus =>
        if gate u p then Reaches a else Rejected Unauthorized
    | createProject | getAllProjects | getProjectById
    | createTask | getProjectTasks | getTaskById
    | findMemberByEmail | getProjectTeam | addMemberById | removeMemberById
    | createNote | getTaskNotes | deleteNote => Reaches a
    end.
Proof.
  unfold dispatch. destruct a; simpl; try reflexivity; destruct (gate u p); reflexivity.
Qed.

End RouteOrder.

(** * Reissued codes *)

Lemma find_none_intro {A : Type} (p : A -> bool) (l : list A) :
  (forall x, In x l -> p x = false) -> find p l = None.
Proof.
  induction l as [|a l IH]; intros H; simpl; [reflexivity|].
  rewrite (H a (or_introl eq_refl)). apply IH. intros x Hx. apply H. right. exact Hx.
Qed.

Lemma code_gone_with_owner (code : string) (uid : ObjectId) (ts : list IToken) (old : IToken) :
  length (filter (has_code code) ts) <= 1 ->
  In old ts -> token_token old = code -> token_user old = uid ->
  find (has_code code) (without uid ts) = None.
Proof.
  intros Hone Hin Hcode Huser. apply find_none_intro. intros x Hx.
  apply filter_In in Hx. destruct Hx as [Hx Hnot].
  destruct (has_code code x) eqn:Hc; [|reflexivity]. exfalso.
  assert (Hold : has_code code old = true)
    by (unfold has_code; rewrite Hcode; apply String.eqb_refl).
  assert (Hne : x <> old).
  { intros ->. unfold owned_by in Hnot. rewrite Huser, Nat.eqb_refl in Hnot. discriminate. }
  pose proof (two_matches_length (has_code code) ts x old Hx Hin Hne Hc Hold). lia.
Qed.

Lemma code_invalid_intro (hashPassword : string -> string) (env : Env)
  (code password : string) (w : World) :
  resolves env Token_findOne = true ->
  find (has_code code) (tokens w) = None ->
  code_invalid hashPassword env code password w.
Proof.
  intros Hres Hnone. unfold code_invalid.
  unfold AuthController.confirmAccount, AuthController.updatePasswordWithToken.
  unfold_handler. rewrite Hres. simpl. rewrite Hnone. split; reflexivity.
Qed.

(** X24. Reissuing invalidates the previous code. After [forgotPassword],
    for any account, or [requestConfirmationCode] or [login], for an
    unconfirmed account, has replaced the account's token, the code of the
    replaced token is answered with the invalid-token error both by
    [confirmAccount] and by [updatePasswordWithToken], provided no other
    stored token carried that code and the new code differs from it. *)
Theorem reissue_invalidates_old_code
  (hashPassword : string -> string) (checkPassword : string -> string -> bool)
  (generateJWT : ObjectId -> string) (env env' : Env)
  (email password password' : string) (w : World) (u : IUser) (old : IToken) :
  wf w ->
  one_token_per_account (tokens w) ->
  all_resolve env ->
  resolves env' Token_findOne = true ->
  find (has_email email) (users w) = Some u ->
  In old (tokens w) ->
  token_user old = user_id u ->
  length (filter (has_code (token_token old)) (tokens w)) <= 1 ->
  generateToken env <> token_token old ->
  code_invalid hashPassword env' (token_token old) password
    (snd (AuthController.forgotPassword env email w)) /\
  (user_confirmed u = false ->
   code_invalid hashPassword env' (token_token old) password
     (snd (AuthController.requestConfirmationCode env email w)) /\
   code_invalid hashPassword env' (token_token old) password
     (snd (AuthController.login checkPassword generateJWT env email password' w))).
Proof.
  intros Hwf Hone Hres Hfind' Hu Hin Huser Hcode Hnew.
  pose proof (delete_previous (user_id u) (tokens w) (wf_token_ids w Hwf) Hone) as Hdel.
  pose proof (code_gone_with_owner (token_token old) (user_id u) (tokens w) old
                Hcode Hin eq_refl Huser) as Hgone.
  assert (Hfresh : has_code (token_token old)
                     (mkToken (next_id w) (generateToken env) (user_id u)) = false)
    by (unfold has_code; simpl; apply String.eqb_neq; exact Hnew).
  assert (Hlookup : find (has_code (token_token old))
                      (without (user_id u) (tokens w)
                       ++ [mkToken (next_id w) (generateToken env) (user_id u)]) = None)
    by (rewrite find_snoc, Hgone, Hfresh; reflexivity).
  split; [|intros Hc; split]; apply code_invalid_intro; try exact Hfind'.
  - unfold AuthController.forgotPassword. unfold_handler.
    rewrite !Hres. simpl. rewrite Hu. simpl.
    destruct (find (owned_by (user_id u)) (tokens w)) as [t|]; simpl;
      rewrite Hdel; exact Hlookup.
  - unfold AuthController.requestConfirmationCode. unfold_handler.
    rewrite !Hres. simpl. rewrite Hu. simpl. rewrite Hc. simpl.
    destruct (find (owned_by (user_id u)) (tokens w)) as [t|]; simpl;
      rewrite Hdel; exact Hlookup.
  - unfold AuthController.login. unfold_handler.
    rewrite !Hres. simpl. rewrite Hu. simpl. rewrite Hc. simpl.
    destruct (find (owned_by (user_id u)) (tokens w)) as [t|]; simpl;
      rewrite Hdel; exact Hlookup.
Qed.

Lemma reissue_invalidates_old_code_witness :
  code_invalid sample_hash (env_ok "") "123456" "x"
    (snd (AuthController.forgotPassword (env_ok "654321") "ann@x.com" ann_world)) /\
  code_invalid sample_hash (env_ok "") "123456" "x"
    (snd (AuthController.requestConfirmationCode (env_ok "654321") "ann@x.com" ann_world)) /\
  code_invalid sample_hash (env_ok "") "123456" "x"
    (snd (AuthController.login sample_check sample_jwt (env_ok "654321") "ann@x.com" "pw123"
            ann_world)).
Proof.
  assert (Hone : length (filter (has_code "123456") (tokens ann_world)) <= 1)
    by (simpl; lia).
  assert (Hnew : "654321" <> "123456") by discriminate.
  destruct (reissue_invalidates_old_code sample_hash sample_check sample_jwt
              (env_ok "654321") (env_ok "") "ann@x.com" "x" "pw123" ann_world
              (mkUser 0 "Ann" "ann@x.com" "$2b$10$pw123" false) (mkToken 1 "123456" 0)
              ann_world_wf ann_world_one_token (all_resolve_env_ok "654321")
              eq_refl eq_refl (or_introl eq_refl) eq_refl Hone Hnew) as [Hforgot Hrest].
  destruct (Hrest eq_refl) as [Hresend Hlogin].
  split; [exact Hforgot|]. split; [exact Hresend | exact Hlogin].
Defined.

Lemma confirmAccount_touches_owner_only_witness :
  Forall2 (confirmed_by (Some (mkToken 1 "123456" 0)))
    (users ann_bob_world)
    (users (snd (AuthController.confirmAccount (env_ok "") "123456" ann_bob_world))) /\
  (forall x,
     In x (tokens (snd (AuthController.confirmAccount (env_ok "") "123456" ann_bob_world))) ->
     In x (tokens ann_bob_world)).
Proof.
  destruct (confirmAccount_touches_owner_only (env_ok "") "123456" ann_bob_world)
    as [Hu [_ Ht]].
  split; [exact Hu | exact Ht].
Defined.
